(** * The interview agent of TheTruthSchool: a shallow embedding

    The Python class [InterviewAgent] (module "AI Interview Agent for
    TheTruthSchool") drives one live mock interview: it asks questions,
    records and evaluates responses, concludes with a final feedback and
    runs a monitor loop for time-outs.  This file embeds its data model
    and its methods as Rocq functions in a state-and-exception monad whose
    state holds the agent object, the outside world (clock, question bank,
    evaluator, feedback generator, interview service, LiveKit session) and
    the log of the calls made to that world; the properties of the session
    orchestrator are then proved about these functions. *)

From Stdlib Require Import ZArith Ascii String List Lia.
From Stdlib Require Import Floats.SpecFloat.
From stdpp Require Import base option list gmap strings pretty.

Local Open Scope Z_scope.

(** ** Python values *)

(** A Python [str] is a sequence of Unicode code points. *)
Abbreviation str := (list N).

(** A string literal of the source, code point by code point. *)
Definition lit (s : string) : str :=
  map N_of_ascii (list_ascii_of_string s).

(** [str(n)] for an [int]. *)
Definition str_of_int (n : Z) : str := lit (pretty n).

Definition nl : str := [10%N].

(** [ch.isspace()]: the white space of CPython's Unicode database. *)
Definition isspace (c : N) : bool :=
  ((9 <=? c) && (c <=? 13) || (28 <=? c) && (c <=? 32)
   || (c =? 133) || (c =? 160) || (c =? 5760)
   || (8192 <=? c) && (c <=? 8202)
   || (c =? 8232) || (c =? 8233) || (c =? 8239) || (c =? 8287)
   || (c =? 12288))%N.

Fixpoint lstrip (s : str) : str :=
  match s with
  | c :: s' => if isspace c then lstrip s' else s
  | [] => []
  end.

Definition rstrip (s : str) : str := rev (lstrip (rev s)).

(** [s.strip()] *)
Definition strip (s : str) : str := rstrip (lstrip s).

(** Truth value of a [str]: false exactly for the empty string. *)
Definition str_truthy (s : str) : bool :=
  match s with [] => false | _ => true end.

(** [sep.join(parts)] *)
Fixpoint join (sep : str) (parts : list str) : str :=
  match parts with
  | [] => []
  | [p] => p
  | p :: rest => p ++ sep ++ join sep rest
  end.

(** Python exceptions that the modelled code can meet. *)
Inductive exn :=
| KeyError (key : string)
| TypeError
| AttributeError
| OverflowError
| JSONDecodeError
| ServiceError (detail : str).

Inductive result (A : Type) :=
| Ok (a : A)
| Raise (e : exn).
Arguments Ok {A} a.
Arguments Raise {A} e.

(** ** Floating point

    Python's [float] is IEEE 754 binary64; its operations are those of
    the Standard Library's executable specification at precision 53. *)
Module Float.

Definition prec : Z := 53.
Definition emax : Z := 1024.

(** The literal [1.2], i.e. 0x1.3333333333333p+0. *)
Definition f1_2 : spec_float := S754_finite false 5404319552844595 (-52).

(** The nearest binary64 to an integer (ties to even). *)
Definition of_Z (z : Z) : spec_float := binary_normalize prec emax z 0 false.

(** [float(n)] as the interpreter performs it on an [int] operand:
    OverflowError when [n] is beyond the binary64 range. *)
Definition of_int (z : Z) : result spec_float :=
  match of_Z z with
  | S754_infinity _ => Raise OverflowError
  | f => Ok f
  end.

(** [n / d] for two [int]s with d > 0.  The interpreter divides the
    exact integers and rounds once: the quotient is taken with more
    than 60 bits and a sticky bit for the remainder, then rounded to
    nearest. *)
Definition int_div (n d : Z) : spec_float :=
  if n =? 0 then S754_zero false
  else
    let k := Z.max 0 (Z.log2 d + 64 - Z.log2 (Z.abs n)) in
    let q := Z.abs n * 2 ^ k / d in
    let sticky := if (Z.abs n * 2 ^ k) mod d =? 0 then 0 else 1 in
    let m := 2 * q + sticky in
    binary_normalize prec emax (if n <? 0 then - m else m) (- k - 1) false.

Definition mul : spec_float -> spec_float -> spec_float := SFmul prec emax.
Definition div : spec_float -> spec_float -> spec_float := SFdiv prec emax.

(** [n < x] for an [int] n and a [float] x; Python compares the two
    exactly, without rounding [n]. *)
Definition int_lt (n : Z) (x : spec_float) : bool :=
  match x with
  | S754_nan => false
  | S754_infinity s => negb s
  | S754_zero _ => n <? 0
  | S754_finite s m e =>
      let v := if s then Z.neg m else Z.pos m in
      if 0 <=? e then n <? v * 2 ^ e else n * 2 ^ (- e) <? v
  end.

(** [int(x)]: truncation towards zero.  Python raises on an infinity
    or a NaN; the quotients of finite durations that reach this
    function are finite, and 0 stands for the other cases. *)
Definition trunc (x : spec_float) : Z :=
  match x with
  | S754_finite s m e =>
      let a := if 0 <=? e then Z.pos m * 2 ^ e else Z.pos m / 2 ^ (- e) in
      if s then - a else a
  | _ => 0
  end.

End Float.

(** ** Dates and durations

    A [datetime] is its number of microseconds since the epoch and a
    [timedelta] a number of microseconds; both are exact in Python. *)
Abbreviation datetime := Z (only parsing).
Abbreviation timedelta := Z (only parsing).

Definition us_per_second : Z := 1000000.
Definition us_per_minute : Z := 60 * us_per_second.

(** [timedelta(minutes=m)] for an [int] m: OverflowError when the day
    count leaves the range of [timedelta]. *)
Definition timedelta_minutes (m : Z) : result timedelta :=
  let days := (m * 60) / 86400 in
  if (-999999999 <=? days) && (days <=? 999999999)
  then Ok (m * us_per_minute)
  else Raise OverflowError.

(** [td.total_seconds()]: the microseconds divided by 10**6, in the
    true division of the two integers. *)
Definition total_seconds (td : timedelta) : spec_float :=
  Float.int_div td us_per_second.

(** ** Data model *)

Inductive InterviewState :=
| INITIALIZING | GREETING | QUESTIONING | EVALUATING
| CONCLUDING | COMPLETED | ERROR.

#[global] Instance InterviewState_eq_dec : EqDecision InterviewState.
Proof. solve_decision. Defined.

(** A dictionary with string keys and string values, as the caller
    passes for a resume and as a data packet carries. *)
Abbreviation dict := (gmap string str).

(** A value under a key of a question of the question bank, which the
    source types Dict[str, Any]: a string, or a scalar that is no string
    (None, a bool or an int). *)
Inductive value :=
| VStr (s : str)
| VNone
| VBool (b : bool)
| VInt (n : Z).

#[global] Instance value_eq_dec : EqDecision value.
Proof. solve_decision. Defined.

(** [str(v)], as an f-string formats [v]. *)
Definition str_of_value (v : value) : str :=
  match v with
  | VStr s => s
  | VNone => lit "None"
  | VBool true => lit "True"
  | VBool false => lit "False"
  | VInt n => str_of_int n
  end.

(** [v[:n]]: a string is cut; the other scalars are not subscriptable. *)
Definition slice_to (n : nat) (v : value) : result value :=
  match v with
  | VStr s => Ok (VStr (take n s))
  | _ => Raise TypeError
  end.

(** A question as the question bank returns it. *)
Abbreviation qdict := (gmap string value).

(** The record the agent keeps for a question it asked. *)
Record QuestionRecord := {
  q_question : value;
  q_type : value;
  q_difficulty : value;
  q_timestamp : datetime;
  q_index : Z }.

(** The record the agent keeps for a response it accepted. *)
Record ResponseRecord := {
  r_response : str;
  r_question_index : Z;
  r_timestamp : datetime;
  r_question_type : value }.

Record InterviewProgress := {
  current_question_index : Z;
  questions_asked : list QuestionRecord;
  responses_received : list ResponseRecord;
  start_time : option datetime;
  last_activity : option datetime;
  state : InterviewState }.

(** The keys of [interview_config] that the modelled methods read; a
    missing key is [None]. *)
Record Config := {
  cfg_duration : option Z;
  cfg_max_questions : option Z;
  cfg_min_questions : option Z;
  cfg_target_role : option str;
  cfg_experience_level : option str }.

Record InterviewAgent := {
  session_id : str;
  config : Config;
  user_resume : option dict;
  progress : InterviewProgress;
  room_participants : gset str;
  current_question : option QuestionRecord;
  waiting_for_response : bool }.

(** [InterviewProgress()] after [__post_init__]. *)
Definition InterviewProgress_new : InterviewProgress :=
  {| current_question_index := 0;
     questions_asked := [];
     responses_received := [];
     start_time := None;
     last_activity := None;
     state := INITIALIZING |}.

(** [InterviewAgent.__init__] *)
Definition InterviewAgent_new (sid : str) (cfg : Config) (resume : option dict)
  : InterviewAgent :=
  {| session_id := sid;
     config := cfg;
     user_resume := resume;
     progress := InterviewProgress_new;
     room_participants := ∅;
     current_question := None;
     waiting_for_response := false |}.

(** Attribute assignments. *)
Definition map_progress (f : InterviewProgress -> InterviewProgress)
    (a : InterviewAgent) : InterviewAgent :=
  {| session_id := session_id a; config := config a;
     user_resume := user_resume a; progress := f (progress a);
     room_participants := room_participants a;
     current_question := current_question a;
     waiting_for_response := waiting_for_response a |}.

Definition set_state (v : InterviewState) (p : InterviewProgress) :=
  {| current_question_index := current_question_index p;
     questions_asked := questions_asked p;
     responses_received := responses_received p;
     start_time := start_time p; last_activity := last_activity p;
     state := v |}.

Definition set_start_time (v : option datetime) (p : InterviewProgress) :=
  {| current_question_index := current_question_index p;
     questions_asked := questions_asked p;
     responses_received := responses_received p;
     start_time := v; last_activity := last_activity p;
     state := state p |}.

Definition set_last_activity (v : option datetime) (p : InterviewProgress) :=
  {| current_question_index := current_question_index p;
     questions_asked := questions_asked p;
     responses_received := responses_received p;
     start_time := start_time p; last_activity := v;
     state := state p |}.

Definition set_current_question_index (v : Z) (p : InterviewProgress) :=
  {| current_question_index := v;
     questions_asked := questions_asked p;
     responses_received := responses_received p;
     start_time := start_time p; last_activity := last_activity p;
     state := state p |}.

(** [questions_asked.append(q)] *)
Definition append_question (q : QuestionRecord) (p : InterviewProgress) :=
  {| current_question_index := current_question_index p;
     questions_asked := questions_asked p ++ [q];
     responses_received := responses_received p;
     start_time := start_time p; last_activity := last_activity p;
     state := state p |}.

(** [responses_received.append(r)] *)
Definition append_response (r : ResponseRecord) (p : InterviewProgress) :=
  {| current_question_index := current_question_index p;
     questions_asked := questions_asked p;
     responses_received := responses_received p ++ [r];
     start_time := start_time p; last_activity := last_activity p;
     state := state p |}.

Definition set_current_question (v : option QuestionRecord)
    (a : InterviewAgent) : InterviewAgent :=
  {| session_id := session_id a; config := config a;
     user_resume := user_resume a; progress := progress a;
     room_participants := room_participants a;
     current_question := v;
     waiting_for_response := waiting_for_response a |}.

Definition set_waiting_for_response (v : bool)
    (a : InterviewAgent) : InterviewAgent :=
  {| session_id := session_id a; config := config a;
     user_resume := user_resume a; progress := progress a;
     room_participants := room_participants a;
     current_question := current_question a;
     waiting_for_response := v |}.

Definition set_room_participants (v : gset str)
    (a : InterviewAgent) : InterviewAgent :=
  {| session_id := session_id a; config := config a;
     user_resume := user_resume a; progress := progress a;
     room_participants := v;
     current_question := current_question a;
     waiting_for_response := waiting_for_response a |}.

(** ** The outside world *)

(** Modelled from the spec: the EvaluationResult that
    [ResponseEvaluator.evaluate_response] returns (app.agents.agent_utils
    is not among the sources); the agent only passes it on. *)
Record Evaluation := {
  ev_score : Z;
  ev_strengths : list str;
  ev_weaknesses : list str;
  ev_feedback : str;
  ev_suggestions : list str }.

(** The dictionary that [FeedbackGenerator.generate_final_feedback]
    returns, by the keys the agent reads with [.get]. *)
Record FinalFeedback := {
  overall_rating : option str;
  strengths : option (list str);
  improvements : option (list str) }.

(** The empty dictionary. *)
Definition no_feedback : FinalFeedback :=
  {| overall_rating := None; strengths := None; improvements := None |}.

(** The [context] argument of [evaluate_response]. *)
Record EvalContext := {
  ctx_target_role : option str;
  ctx_experience_level : option str;
  ctx_interview_progress : Z }.

(** The [progress_data] dictionary of [_save_interview_progress]. *)
Record ProgressData := {
  pd_current_question_index : Z;
  pd_questions_asked : list QuestionRecord;
  pd_responses_received : list ResponseRecord;
  pd_state : InterviewState;
  pd_start_time : option datetime;
  pd_last_activity : option datetime;
  pd_updated_at : datetime }.

(** The [data] dictionaries handed to [_update_interview_status]. *)
Inductive StatusData :=
| FeedbackData (f : FinalFeedback)
| EarlyExitData (reason : str)
    (questions_completed responses_completed duration_minutes : Z)
| ErrorData (error : exn) (timestamp : datetime).

(** The messages built for the data channel. *)
Inductive DataMessage :=
| QuestionMessage (q : QuestionRecord)
| EvaluationMessage (response_index : Z) (evaluation : Evaluation)
    (feedback : str)
| FinalFeedbackMessage (f : FinalFeedback).

(** The three instruction texts given to [session.generate_reply]. *)
Inductive Instructions :=
| GreetingInstructions
| TimeReachedInstructions
| InactiveInstructions.

(** A call that leaves the agent, with its arguments. *)
Inductive Call :=
| Connect
| SessionStart
| GenerateReply (i : Instructions)
| GetTotalAvailableQuestions
| GetNextQuestion (current_index : Z) (previous : list ResponseRecord)
    (resume : option dict)
| EvaluateResponse (question : value) (response : str)
    (question_type : value) (context : EvalContext)
| GenerateResponseFeedback (evaluation : Evaluation) (is_early : bool)
| GenerateFinalFeedback (qs : list QuestionRecord)
    (rs : list ResponseRecord) (cfg : Config) (duration_minutes : Z)
| SaveProgress (sid : str) (data : ProgressData)
| StartSession (sid : str)
| CompleteSession (sid : str) (data : StatusData).

(** The collaborators of the agent.  Each is a transformer of an opaque
    world that answers or raises; nothing is assumed of them.  The two
    [settings] constants come from app.core.config, which is not among
    the sources. *)
Record Env := {
  World : Type;
  MAX_QUESTIONS_PER_INTERVIEW : Z;
  MIN_QUESTIONS_PER_INTERVIEW : Z;
  utcnow : World -> datetime * World;
  connect : World -> result unit * World;
  session_start : World -> result unit * World;
  generate_reply : Instructions -> World -> result unit * World;
  get_total_available_questions : World -> result Z * World;
  get_next_question :
    Z -> list ResponseRecord -> option dict -> World ->
    result (option qdict) * World;
  evaluate_response :
    value -> str -> value -> EvalContext -> World ->
    result Evaluation * World;
  generate_response_feedback :
    Evaluation -> bool -> World -> result str * World;
  generate_final_feedback :
    list QuestionRecord -> list ResponseRecord -> Config -> Z -> World ->
    result FinalFeedback * World;
  save_progress : str -> ProgressData -> World -> result unit * World;
  start_session : str -> World -> result unit * World;
  complete_session : str -> StatusData -> World -> result unit * World }.

(** The whole system: the agent object, the world, and the calls made
    so far, oldest first. *)
Record Sys (E : Env) := {
  agent : InterviewAgent;
  world : World E;
  calls : list Call }.
Arguments agent {E} s.
Arguments world {E} s.
Arguments calls {E} s.
Arguments Build_Sys {E} agent world calls.

(** ** The monad of the agent's methods: state and exceptions *)

Definition M (E : Env) (A : Type) : Type := Sys E -> result A * Sys E.

#[global] Instance M_ret E : MRet (M E) := fun A a s => (Ok a, s).

#[global] Instance M_bind E : MBind (M E) := fun A B f m s =>
  match m s with
  | (Ok a, s') => f a s'
  | (Raise e, s') => (Raise e, s')
  end.

Section Agent.

Context {E : Env}.

Definition raise {A} (e : exn) : M E A := fun s => (Raise e, s).

(** [try: body except Exception as e: handler e]; what [body] did to
    the state before raising stays done. *)
Definition try_except {A} (body : M E A) (handler : exn -> M E A) : M E A :=
  fun s =>
    match body s with
    | (Ok a, s') => (Ok a, s')
    | (Raise e, s') => handler e s'
    end.

Definition lift {A} (r : result A) : M E A := fun s => (r, s).

(** Read an attribute of [self]. *)
Definition gets {A} (f : InterviewAgent -> A) : M E A :=
  fun s => (Ok (f (agent s)), s).

(** Assign attributes of [self]. *)
Definition modify (f : InterviewAgent -> InterviewAgent) : M E unit :=
  fun s => (Ok tt, Build_Sys (f (agent s)) (world s) (calls s)).

(** Call a collaborator: the call is logged, then the world answers. *)
Definition call {A} (c : Call) (f : World E -> result A * World E) : M E A :=
  fun s =>
    let (r, w) := f (world s) in
    (r, Build_Sys (agent s) w (calls s ++ [c])).

(** [datetime.utcnow()] *)
Definition now : M E datetime :=
  fun s =>
    let (t, w) := utcnow E (world s) in
    (Ok t, Build_Sys (agent s) w (calls s)).

(** [d[key]] *)
Definition getitem (d : qdict) (key : string) : M E value :=
  match d !! key with
  | Some v => mret v
  | None => raise (KeyError key)
  end.

(** ** Helpers of the agent *)

(** [_get_interview_duration]: whole minutes since [start_time]. *)
Definition _get_interview_duration : M E Z :=
  st ← gets (fun a => start_time (progress a));
  match st with
  | None => mret 0
  | Some t0 =>
      t ← now;
      let elapsed := t - t0 in
      mret (Float.trunc (Float.div (total_seconds elapsed) (Float.of_Z 60)))
  end.

(** [_should_continue_interview] *)
Definition _should_continue_interview : M E bool :=
  cfg ← gets config;
  total ← call GetTotalAvailableQuestions (get_total_available_questions E);
  let max_questions :=
    Z.min (default (MAX_QUESTIONS_PER_INTERVIEW E) (cfg_max_questions cfg))
          total in
  let min_questions :=
    Z.max (default (MIN_QUESTIONS_PER_INTERVIEW E) (cfg_min_questions cfg))
          3 in
  questions_asked ←
    gets (fun a => Z.of_nat (length (questions_asked (progress a))));
  if questions_asked <? min_questions then mret true
  else if questions_asked >=? max_questions then mret false
  else
    duration_minutes ← _get_interview_duration;
    let target_duration := default 30 (cfg_duration cfg) in
    target ← lift (Float.of_int target_duration);
    mret (Float.int_lt duration_minutes (Float.mul target Float.f1_2)).

Definition bullet : str := [8226%N; 32%N].

(** [_format_feedback_list] *)
Definition _format_feedback_list (items : list str) : str :=
  match items with
  | [] => bullet ++ lit "None identified"
  | _ => join nl (map (fun item => bullet ++ item) (take 3 items))
  end.

(** [_send_data_message]: the message is serialised and dropped (the
    source only logs its type), and a failure to serialise is caught;
    so nothing leaves the agent. *)
Definition _send_data_message (message : DataMessage) : M E unit :=
  mret tt.

(** [_save_interview_progress] *)
Definition _save_interview_progress : M E unit :=
  try_except
    (a ← gets id;
     updated_at ← now;
     let p := progress a in
     let progress_data :=
       {| pd_current_question_index := current_question_index p;
          pd_questions_asked := questions_asked p;
          pd_responses_received := responses_received p;
          pd_state := state p;
          pd_start_time := start_time p;
          pd_last_activity := last_activity p;
          pd_updated_at := updated_at |} in
     call (SaveProgress (session_id a) progress_data)
          (save_progress E (session_id a) progress_data))
    (fun _ => mret tt).

(** [_update_interview_status] *)
Definition _update_interview_status (status : string)
    (data : option StatusData) : M E unit :=
  try_except
    (sid ← gets session_id;
     if bool_decide (status = "started") then
       call (StartSession sid) (start_session E sid)
     else if bool_decide (status = "completed") then
       let d := default (FeedbackData no_feedback) data in
       call (CompleteSession sid d) (complete_session E sid d)
     else mret tt)
    (fun _ => mret tt).

(** [_handle_early_exit] *)
Definition _handle_early_exit : M E unit :=
  p ← gets progress;
  duration_minutes ← _get_interview_duration;
  _update_interview_status "incomplete"
    (Some (EarlyExitData (lit "early_exit")
             (Z.of_nat (length (questions_asked p)))
             (Z.of_nat (length (responses_received p)))
             duration_minutes)).

(** [_handle_agent_error] *)
Definition _handle_agent_error (error : exn) : M E unit :=
  timestamp ← now;
  _update_interview_status "error" (Some (ErrorData error timestamp)).

(** ** The tools of the agent *)

Definition conclusion_text (asked minutes : Z) (f : FinalFeedback) : str :=
  nl ++ lit "Thank you for participating in this mock interview! You did a great job."
  ++ nl ++ nl ++ lit "## Quick Summary:"
  ++ nl ++ lit "- Questions covered: " ++ str_of_int asked
  ++ nl ++ lit "- Interview duration: " ++ str_of_int minutes ++ lit " minutes"
  ++ nl ++ lit "- Overall performance: " ++ default (lit "Good") (overall_rating f)
  ++ nl ++ nl ++ lit "## Key Strengths:"
  ++ nl ++ _format_feedback_list (default [] (strengths f))
  ++ nl ++ nl ++ lit "## Areas for Improvement:"
  ++ nl ++ _format_feedback_list (default [] (improvements f))
  ++ nl ++ nl ++ lit "You'll receive a detailed written report with specific recommendations for your continued preparation. "
  ++ nl ++ nl ++ lit "Best of luck with your job search! Remember, practice makes perfect, and you're on the right track."
  ++ nl.

Definition conclusion_fallback : str :=
  lit "Thank you for the interview! You'll receive detailed feedback shortly.".

(** [_conclude_interview] *)
Definition _conclude_interview : M E str :=
  try_except
    (modify (map_progress (set_state CONCLUDING));;
     a ← gets id;
     duration_minutes ← _get_interview_duration;
     let qs := questions_asked (progress a) in
     let rs := responses_received (progress a) in
     final_feedback ←
       call (GenerateFinalFeedback qs rs (config a) duration_minutes)
            (generate_final_feedback E qs rs (config a) duration_minutes);
     _send_data_message (FinalFeedbackMessage final_feedback);;
     _update_interview_status "completed"
       (Some (FeedbackData final_feedback));;
     modify (map_progress (set_state COMPLETED));;
     asked ← gets (fun a => Z.of_nat (length (questions_asked (progress a))));
     minutes ← _get_interview_duration;
     mret (conclusion_text asked minutes final_feedback))
    (fun _ => mret conclusion_fallback).

Definition question_prompt (question : str) : str :=
  lit "Here's your next question:" ++ nl ++ nl ++ question ++ nl ++ nl
  ++ lit "Take your time to think through your response.".

Definition question_filler : str :=
  lit "I apologize, let me think of an appropriate question for you.".

(** Truth value of what the question bank returns: [None] and the
    empty dictionary are false. *)
Definition question_data_truthy (d : option qdict) : option qdict :=
  match d with
  | Some m => if bool_decide (m = ∅) then None else Some m
  | None => None
  end.

(** [_ask_next_question].  After the progress is saved, the log line
    cuts the question to its first 50 characters, which raises for a
    question that is no string. *)
Definition _ask_next_question : M E str :=
  try_except
    (continue ← _should_continue_interview;
     if negb continue then _conclude_interview
     else
       a ← gets id;
       question_data ←
         call (GetNextQuestion (current_question_index (progress a))
                 (responses_received (progress a)) (user_resume a))
              (get_next_question E (current_question_index (progress a))
                 (responses_received (progress a)) (user_resume a));
       match question_data_truthy question_data with
       | None => _conclude_interview
       | Some question_data =>
           question ← getitem question_data "question";
           type ← getitem question_data "type";
           let difficulty :=
             default (VStr (lit "medium")) (question_data !! "difficulty") in
           timestamp ← now;
           index ← gets (fun a => current_question_index (progress a));
           let question_record :=
             {| q_question := question; q_type := type;
                q_difficulty := difficulty; q_timestamp := timestamp;
                q_index := index |} in
           modify (map_progress (append_question question_record));;
           modify (set_current_question (Some question_record));;
           modify (set_waiting_for_response true);;
           modify (map_progress (fun p =>
             set_current_question_index (current_question_index p + 1) p));;
           modify (map_progress (set_state QUESTIONING));;
           _send_data_message (QuestionMessage question_record);;
           _save_interview_progress;;
           lift (slice_to 50 question);;
           mret (question_prompt (str_of_value question))
       end)
    (fun _ => mret question_filler).

(** [_ask_next_question] is a coroutine: it is suspended at the await
    on the question bank, and other coroutines of the agent can run
    before it resumes.  Its two parts: up to the request to the bank,
    whose answer is then pending, and from the answer on. *)
Inductive AskPending :=
| AskFinished (text : str)
| AskAwaiting (answer : result (option qdict)).

(** A request to a collaborator whose answer is awaited: the call is
    logged and the world answers, but the answer is not yet looked at. *)
Definition request {A} (c : Call) (f : World E -> result A * World E)
  : M E (result A) :=
  fun s =>
    let (r, w) := f (world s) in
    (Ok r, Build_Sys (agent s) w (calls s ++ [c])).

Definition ask_begin : M E AskPending :=
  try_except
    (continue ← _should_continue_interview;
     if negb continue then
       text ← _conclude_interview; mret (AskFinished text)
     else
       a ← gets id;
       answer ←
         request (GetNextQuestion (current_question_index (progress a))
                    (responses_received (progress a)) (user_resume a))
                 (get_next_question E (current_question_index (progress a))
                    (responses_received (progress a)) (user_resume a));
       mret (AskAwaiting answer))
    (fun _ => mret (AskFinished question_filler)).

Definition ask_resume (answer : result (option qdict)) : M E str :=
  try_except
    (question_data ← lift answer;
     match question_data_truthy question_data with
     | None => _conclude_interview
     | Some question_data =>
         question ← getitem question_data "question";
         type ← getitem question_data "type";
         let difficulty :=
           default (VStr (lit "medium")) (question_data !! "difficulty") in
         timestamp ← now;
         index ← gets (fun a => current_question_index (progress a));
         let question_record :=
           {| q_question := question; q_type := type;
              q_difficulty := difficulty; q_timestamp := timestamp;
              q_index := index |} in
         modify (map_progress (append_question question_record));;
         modify (set_current_question (Some question_record));;
         modify (set_waiting_for_response true);;
         modify (map_progress (fun p =>
           set_current_question_index (current_question_index p + 1) p));;
         modify (map_progress (set_state QUESTIONING));;
         _send_data_message (QuestionMessage question_record);;
         _save_interview_progress;;
         lift (slice_to 50 question);;
         mret (question_prompt (str_of_value question))
     end)
    (fun _ => mret question_filler).

(** The two parts, the second run as soon as the first has ended. *)
Definition ask_without_overlap : M E str :=
  pending ← ask_begin;
  match pending with
  | AskFinished text => mret text
  | AskAwaiting answer => ask_resume answer
  end.

Definition response_not_caught : str :=
  lit "I didn't catch your response clearly. Could you please repeat that?".

Definition response_acknowledged : str :=
  lit "Thank you for that response. Let's continue with the next question.".

(** [_evaluate_response] *)
Definition _evaluate_response (response : str) : M E str :=
  try_except
    (current ← gets current_question;
     match current with
     | None => mret response_not_caught
     | Some current_question =>
         if negb (str_truthy (strip response)) then mret response_not_caught
         else
           timestamp ← now;
           let response_record :=
             {| r_response := response;
                r_question_index := q_index current_question;
                r_timestamp := timestamp;
                r_question_type := q_type current_question |} in
           modify (map_progress (append_response response_record));;
           t ← now;
           modify (map_progress (set_last_activity (Some t)));;
           modify (map_progress (set_state EVALUATING));;
           modify (set_waiting_for_response false);;
           a ← gets id;
           let received :=
             Z.of_nat (length (responses_received (progress a))) in
           let context :=
             {| ctx_target_role := cfg_target_role (config a);
                ctx_experience_level := cfg_experience_level (config a);
                ctx_interview_progress := received |} in
           evaluation ←
             call (EvaluateResponse (q_question current_question) response
                     (q_type current_question) context)
                  (evaluate_response E (q_question current_question)
                     response (q_type current_question) context);
           feedback ←
             call (GenerateResponseFeedback evaluation (received <=? 2))
                  (generate_response_feedback E evaluation (received <=? 2));
           _send_data_message
             (EvaluationMessage (received - 1) evaluation feedback);;
           _save_interview_progress;;
           mret feedback
     end)
    (fun _ => mret response_acknowledged).

Definition hint_behavioral : str :=
  lit "Think about a specific situation from your past. Use the STAR method: describe the Situation, your Task, the Actions you took, and the Results achieved.".
Definition hint_technical : str :=
  lit "Break down the problem step by step. Explain your thought process, consider edge cases, and discuss any trade-offs in your approach.".
Definition hint_system_design : str :=
  lit "Start with understanding the requirements. Think about scale, identify key components, and discuss how they interact. Don't forget about data storage and potential bottlenecks.".
Definition hint_problem_solving : str :=
  lit "Walk me through your thinking process. What's your approach to breaking down complex problems? What factors would you consider?".

(** The [hints] dictionary with its default. *)
Definition hints (question_type : value) : str :=
  if bool_decide (question_type = VStr (lit "behavioral"))
  then hint_behavioral
  else if bool_decide (question_type = VStr (lit "technical"))
       then hint_technical
  else if bool_decide (question_type = VStr (lit "system_design"))
       then hint_system_design
  else if bool_decide (question_type = VStr (lit "problem_solving"))
       then hint_problem_solving
  else hint_behavioral.

(** [_provide_hint] *)
Definition _provide_hint : M E str :=
  current ← gets current_question;
  match current with
  | None =>
      mret (lit "I don't have a specific hint right now. Feel free to ask me to clarify the question.")
  | Some current_question =>
      mret (lit "Here's a hint to help you structure your response: "
            ++ hints (q_type current_question) ++ nl ++ nl
            ++ lit "Take your time and provide specific examples where possible.")
  end.

(** [_handle_clarification]; the prompt it builds from [request] is
    not used, and its [try] block cannot raise. *)
Definition _handle_clarification (request : str) : M E str :=
  current ← gets current_question;
  match current with
  | None => mret (lit "What would you like me to clarify?")
  | Some current_question =>
      mret (lit "Good question! Let me clarify: "
            ++ str_of_value (q_question current_question) ++ nl ++ nl
            ++ lit "I'm looking for a specific example from your experience where you can walk me through your thought process and the outcome. Does that help?")
  end.

(** ** Room events *)

(** A decoded data packet: [{ type, data }]. *)
Record InboundMessage := {
  msg_type : option str;
  msg_data : option dict }.

(** [_handle_data_message] *)
Definition _handle_data_message (message : InboundMessage) : M E unit :=
  let message_type := msg_type message in
  let data := default ∅ (msg_data message) in
  if bool_decide (message_type = Some (lit "response_submitted")) then
    let response_text := default [] (data !! "response") in
    waiting ← gets waiting_for_response;
    if str_truthy response_text && waiting
    then _evaluate_response response_text;; mret tt
    else mret tt
  else if bool_decide (message_type = Some (lit "request_hint")) then
    _provide_hint;; mret tt
  else if bool_decide (message_type = Some (lit "request_clarification")) then
    let clarification_text := default [] (data !! "request") in
    _handle_clarification clarification_text;; mret tt
  else mret tt.

(** The handler of "participant_connected". *)
Definition on_participant_connected (identity : str) : M E unit :=
  modify (fun a =>
    set_room_participants ({[ identity ]} ∪ room_participants a) a).

(** The handler of "participant_disconnected"; the task it creates for
    the early exit is run at once. *)
Definition on_participant_disconnected (identity : str) : M E unit :=
  modify (fun a =>
    set_room_participants (room_participants a ∖ {[ identity ]}) a);;
  remaining ← gets room_participants;
  if bool_decide (size remaining = 0%nat) then _handle_early_exit
  else mret tt.

(** The handler of "data_received"; [None] is a packet that is not
    JSON. *)
Definition on_data_received (packet : option InboundMessage) : M E unit :=
  try_except
    (match packet with
     | Some message => _handle_data_message message
     | None => raise JSONDecodeError
     end)
    (fun _ => mret tt).

(** What can happen to the agent while another coroutine is
    suspended: the language model calls one of its tools, or the room
    delivers an event. *)
Inductive Event :=
| AskNextQuestion
| SubmitResponse (response : str)
| ProvideHint
| HandleClarification (request : str)
| ConcludeInterview
| ParticipantConnected (identity : str)
| ParticipantDisconnected (identity : str)
| DataReceived (packet : option InboundMessage).

Definition dispatch (ev : Event) : M E unit :=
  match ev with
  | AskNextQuestion => _ask_next_question;; mret tt
  | SubmitResponse response => _evaluate_response response;; mret tt
  | ProvideHint => _provide_hint;; mret tt
  | HandleClarification request => _handle_clarification request;; mret tt
  | ConcludeInterview => _conclude_interview;; mret tt
  | ParticipantConnected identity => on_participant_connected identity
  | ParticipantDisconnected identity => on_participant_disconnected identity
  | DataReceived packet => on_data_received packet
  end.

Fixpoint dispatch_all (evs : list Event) : M E unit :=
  match evs with
  | [] => mret tt
  | ev :: rest => dispatch ev;; dispatch_all rest
  end.

(** ** The monitor loop *)

Definition is_terminal (st : InterviewState) : bool :=
  match st with
  | COMPLETED | ERROR => true
  | _ => false
  end.

(** [timedelta(minutes=10)] *)
Definition inactivity_limit : timedelta := 10 * us_per_minute.

(** How the loop was left: its condition failed, one of its two
    [break]s was taken at the clock reading given, or the schedule
    below ran out while it was still looping. *)
Inductive MonitorExit :=
| ExitTerminal
| ExitTimeout (current_time : datetime)
| ExitInactive (current_time : datetime)
| StillRunning.

(** The [while] loop of [_monitor_interview_progress].  Each element
    of [sleeps] is one [await asyncio.sleep(30)], given by the events
    that the agent handles while the loop sleeps. *)
Fixpoint monitor_loop (max_duration : timedelta)
    (start_time : option datetime) (sleeps : list (list Event))
    : M E MonitorExit :=
  st ← gets (fun a => state (progress a));
  if is_terminal st then mret ExitTerminal
  else
    match sleeps with
    | [] => mret StillRunning
    | during :: rest =>
        dispatch_all during;;
        current_time ← now;
        match start_time with
        | None => raise TypeError
        | Some t0 =>
            let elapsed := current_time - t0 in
            if elapsed >? max_duration then
              call (GenerateReply TimeReachedInstructions)
                   (generate_reply E TimeReachedInstructions);;
              mret (ExitTimeout current_time)
            else
              last ← gets (fun a => last_activity (progress a));
              match last with
              | Some t =>
                  if current_time - t >? inactivity_limit then
                    call (GenerateReply InactiveInstructions)
                         (generate_reply E InactiveInstructions);;
                    mret (ExitInactive current_time)
                  else monitor_loop max_duration start_time rest
              | None => monitor_loop max_duration start_time rest
              end
        end
    end.

(** [_monitor_interview_progress] *)
Definition _monitor_interview_progress (sleeps : list (list Event))
    : M E MonitorExit :=
  cfg ← gets config;
  max_duration ← lift (timedelta_minutes (default 30 (cfg_duration cfg) + 5));
  start_time ← gets (fun a => start_time (progress a));
  monitor_loop max_duration start_time sleeps.

(** [entrypoint], from the connection to the end of the monitor loop.
    The construction of the LiveKit agent and session is part of
    [SessionStart]. *)
Definition entrypoint (sleeps : list (list Event)) : M E unit :=
  try_except
    (call Connect (connect E);;
     t ← now;
     modify (map_progress (set_start_time (Some t)));;
     modify (map_progress (set_state GREETING));;
     call SessionStart (session_start E);;
     call (GenerateReply GreetingInstructions)
          (generate_reply E GreetingInstructions);;
     _update_interview_status "started" None;;
     _monitor_interview_progress sleeps;;
     mret tt)
    (fun e =>
       modify (map_progress (set_state ERROR));;
       _handle_agent_error e;;
       raise e).

(** A session in progress: the system after the entry point has
    connected, or failed, and any events have been handled. *)
Inductive Step :=
| Started
| Failed (e : exn)
| Handled (ev : Event).

Definition step (x : Step) : M E unit :=
  match x with
  | Started =>
      t ← now;
      modify (map_progress (set_start_time (Some t)));;
      modify (map_progress (set_state GREETING))
  | Failed e =>
      modify (map_progress (set_state ERROR));;
      _handle_agent_error e
  | Handled ev => dispatch ev
  end.

(** The state in which a method leaves the system. *)
Definition exec {A} (m : M E A) (s : Sys E) : Sys E := snd (m s).

(** The value a method returns or the exception it raises. *)
Definition outcome {A} (m : M E A) (s : Sys E) : result A := fst (m s).

Definition initial (sid : str) (cfg : Config) (resume : option dict)
    (w : World E) : Sys E :=
  Build_Sys (InterviewAgent_new sid cfg resume) w [].

(** The systems reached from a new agent by steps of which each runs
    to its end before the next begins.  The tools are coroutines: an
    execution in which one of them starts while another is suspended
    at an await is not among these systems. *)
Inductive reachable : Sys E -> Prop :=
| reachable_initial sid cfg resume w :
    reachable (initial sid cfg resume w)
| reachable_step s x :
    reachable s -> reachable (exec (step x) s).

(** ** The entry point of the worker *)

(** The value under "interview_config" in the metadata: the key is
    missing, or it holds something that is no dictionary (null
    included), or it holds a dictionary. *)
Inductive ConfigEntry :=
| ConfigMissing
| ConfigNotDict
| ConfigDict (cfg : Config).

(** The metadata of the room as [interview_agent_entrypoint] reads it:
    absent or empty; not JSON; JSON that is no object; or a JSON object,
    of which the keys "session_id" ([None]: missing or null),
    "interview_config" and "user_resume" are read with [.get]. *)
Inductive RoomMetadata :=
| NoMetadata
| InvalidMetadata
| NotAnObject
| SessionConfig (sid : option str) (interview_config : ConfigEntry)
    (resume : option dict).

(** The empty dictionary as an [interview_config]. *)
Definition empty_config : Config :=
  {| cfg_duration := None; cfg_max_questions := None;
     cfg_min_questions := None; cfg_target_role := None;
     cfg_experience_level := None |}.

(** [interview_agent_entrypoint], started in the world [w]: what it
    returns or raises, and the system that the agent it created left
    behind, if it created one.  A value that is no object has no
    [.get], and the constructor of the agent calls [.get] on the
    configuration: both raise AttributeError.  The [except] clause logs
    and raises again. *)
Definition interview_agent_entrypoint (metadata : RoomMetadata)
    (sleeps : list (list Event)) (w : World E)
    : result unit * option (Sys E) :=
  match metadata with
  | NoMetadata => (Ok tt, None)
  | InvalidMetadata => (Ok tt, None)
  | NotAnObject => (Raise AttributeError, None)
  | SessionConfig sid interview_config resume =>
      let interview_config :=
        match interview_config with
        | ConfigMissing => Some empty_config
        | ConfigNotDict => None
        | ConfigDict cfg => Some cfg
        end in
      match sid with
      | Some sid =>
          if negb (str_truthy sid) then (Ok tt, None)
          else
            match interview_config with
            | None => (Raise AttributeError, None)
            | Some cfg =>
                let (r, s') := entrypoint sleeps (initial sid cfg resume w) in
                (r, Some s')
            end
      | None => (Ok tt, None)
      end
  end.

End Agent.

(** ** Worlds for examples *)
Module Demo.

(** What the collaborators of an example answer.  The world is the
    clock, in microseconds; each reading advances it by [tick]. *)
Record Script := {
  tick : Z;
  bank_total : result Z;
  bank_next : Z -> result (option qdict);
  evaluator : result Evaluation;
  response_feedback : result str;
  final_feedback : datetime -> result FinalFeedback;
  store : result unit;
  session : result unit }.

Definition env (sc : Script) : Env :=
  {| World := Z;
     MAX_QUESTIONS_PER_INTERVIEW := 10;
     MIN_QUESTIONS_PER_INTERVIEW := 3;
     utcnow := fun w => (w, w + tick sc);
     connect := fun w => (session sc, w);
     session_start := fun w => (session sc, w);
     generate_reply := fun _ w => (session sc, w);
     get_total_available_questions := fun w => (bank_total sc, w);
     get_next_question := fun i _ _ w => (bank_next sc i, w);
     evaluate_response := fun _ _ _ _ w => (evaluator sc, w);
     generate_response_feedback := fun _ _ w => (response_feedback sc, w);
     generate_final_feedback := fun _ _ _ _ w => (final_feedback sc w, w);
     save_progress := fun _ _ w => (store sc, w);
     start_session := fun _ w => (store sc, w);
     complete_session := fun _ _ w => (store sc, w) |}.

Definition a_question (i : Z) : qdict :=
  {[ "question" :=
       VStr (lit "Tell me about a project you led." ++ str_of_int i);
     "type" := VStr (lit "behavioral") ]}.

Definition an_evaluation : Evaluation :=
  {| ev_score := 7; ev_strengths := [lit "clear"]; ev_weaknesses := [];
     ev_feedback := lit "Good structure."; ev_suggestions := [] |}.

(** The final feedback carries the second at which it was produced. *)
Definition feedback_at (w : datetime) : FinalFeedback :=
  {| overall_rating := Some (lit "Good at " ++ str_of_int (w / us_per_second));
     strengths := Some [lit "clear"];
     improvements := None |}.

(** All collaborators answer; the clock advances one second a reading. *)
Definition healthy : Script :=
  {| tick := us_per_second;
     bank_total := Ok 10;
     bank_next := fun i => Ok (Some (a_question i));
     evaluator := Ok an_evaluation;
     response_feedback := Ok (lit "Nice answer.");
     final_feedback := fun w => Ok (feedback_at w);
     store := Ok tt;
     session := Ok tt |}.

(** The interview service raises on every call. *)
Definition store_down : Script :=
  {| tick := us_per_second;
     bank_total := Ok 10;
     bank_next := fun i => Ok (Some (a_question i));
     evaluator := Ok an_evaluation;
     response_feedback := Ok (lit "Nice answer.");
     final_feedback := fun w => Ok (feedback_at w);
     store := Raise (ServiceError (lit "database unreachable"));
     session := Ok tt |}.

(** The question bank returns dictionaries without a "question" key. *)
Definition bank_malformed : Script :=
  {| tick := us_per_second;
     bank_total := Ok 10;
     bank_next := fun i => Ok (Some {[ "type" := VStr (lit "behavioral") ]});
     evaluator := Ok an_evaluation;
     response_feedback := Ok (lit "Nice answer.");
     final_feedback := fun w => Ok (feedback_at w);
     store := Ok tt;
     session := Ok tt |}.

(** The response evaluator raises. *)
Definition evaluator_down : Script :=
  {| tick := us_per_second;
     bank_total := Ok 10;
     bank_next := fun i => Ok (Some (a_question i));
     evaluator := Raise (ServiceError (lit "model unavailable"));
     response_feedback := Ok (lit "Nice answer.");
     final_feedback := fun w => Ok (feedback_at w);
     store := Ok tt;
     session := Ok tt |}.

(** All collaborators answer; the clock advances eleven minutes a
    reading. *)
Definition slow : Script :=
  {| tick := 11 * us_per_minute;
     bank_total := Ok 10;
     bank_next := fun i => Ok (Some (a_question i));
     evaluator := Ok an_evaluation;
     response_feedback := Ok (lit "Nice answer.");
     final_feedback := fun w => Ok (feedback_at w);
     store := Ok tt;
     session := Ok tt |}.




(** min_questions = 3, max_questions = 5, duration = 30. *)
Definition cfg_3_5_30 : Config :=
  {| cfg_duration := Some 30;
     cfg_max_questions := Some 5;
     cfg_min_questions := Some 3;
     cfg_target_role := Some (lit "Software Developer");
     cfg_experience_level := Some (lit "mid") |}.

Definition new_session (sc : Script) : Sys (env sc) :=
  @initial (env sc) (lit "session-1") cfg_3_5_30 None 0.

(** The system after the entry point connected and the events [evs]
    were handled. *)
Definition after (sc : Script) (evs : list Event) : Sys (env sc) :=
  exec (step Started;; dispatch_all evs) (new_session sc).

End Demo.

(** ** Properties *)
Section Properties.

Context {E : Env}.
Implicit Types (s : Sys E) (a : InterviewAgent).

(** *** Definitions used to state the properties *)

(** [wp m s Q]: [Q] holds of what [m] returns or raises from [s] and
    of the state it leaves. *)
Definition wp {A} (m : M E A) s (Q : result A -> Sys E -> Prop) : Prop :=
  Q (outcome m s) (exec m s).

(** The quantities of the continuation policy: the questions asked so
    far, the floor and, for a question bank holding [total] questions,
    the ceiling on their number, and the target duration in minutes. *)
Definition asked s : Z :=
  Z.of_nat (length (questions_asked (progress (agent s)))).
Definition min_q s : Z :=
  Z.max (default (MIN_QUESTIONS_PER_INTERVIEW E)
                 (cfg_min_questions (config (agent s)))) 3.
Definition max_q s (total : Z) : Z :=
  Z.min (default (MAX_QUESTIONS_PER_INTERVIEW E)
                 (cfg_max_questions (config (agent s)))) total.
Definition target_minutes s : Z :=
  default 30 (cfg_duration (config (agent s))).

(** The system once the question bank has been asked how many
    questions it has and the world has become [w]. *)
Definition polled s (w : World E) : Sys E :=
  Build_Sys (agent s) w (calls s ++ [GetTotalAvailableQuestions]).

(** The calls of [_update_interview_status]. *)
Definition status_calls (status : string) (data : option StatusData)
    (sid : str) : list Call :=
  if bool_decide (status = "started") then [StartSession sid]
  else if bool_decide (status = "completed")
       then [CompleteSession sid (default (FeedbackData no_feedback) data)]
  else [].

(** The assignments of [_conclude_interview]. *)
Definition concluding a : InterviewAgent :=
  map_progress (set_state CONCLUDING) a.
Definition completed a : InterviewAgent :=
  map_progress (set_state COMPLETED) (concluding a).

(** The assignments of [_ask_next_question] for the record [q]. *)
Definition asked_with (q : QuestionRecord) a : InterviewAgent :=
  map_progress (set_state QUESTIONING)
    (map_progress
       (fun p => set_current_question_index (current_question_index p + 1) p)
       (set_waiting_for_response true
          (set_current_question (Some q)
             (map_progress (append_question q) a)))).

(** The assignments of [_evaluate_response] for the record [r],
    accepted at [t]. *)
Definition answered_with (r : ResponseRecord) (t : datetime) a
    : InterviewAgent :=
  set_waiting_for_response false
    (map_progress (set_state EVALUATING)
       (map_progress (set_last_activity (Some t))
          (map_progress (append_response r) a))).

(** The call to the final feedback generator made from [s] when the
    duration is [d] minutes. *)
Definition final_call s (d : Z) : Call :=
  GenerateFinalFeedback (questions_asked (progress (agent s)))
    (responses_received (progress (agent s))) (config (agent s)) d.

(** The record of a response accepted at [t] for the question [cq]. *)
Definition response_to (cq : QuestionRecord) (response : str)
    (t : datetime) : ResponseRecord :=
  {| r_response := response; r_question_index := q_index cq;
     r_timestamp := t; r_question_type := q_type cq |}.

(** How the agent object can differ after a step from before it. *)
Inductive evolves : InterviewAgent -> InterviewAgent -> Prop :=
| evolves_refl a : evolves a a
| evolves_trans a b c : evolves a b -> evolves b c -> evolves a c
| evolves_state a st : evolves a (map_progress (set_state st) a)
| evolves_start a t : evolves a (map_progress (set_start_time (Some t)) a)
| evolves_room a ps : evolves a (set_room_participants ps a)
| evolves_asked a q :
    q_index q = current_question_index (progress a) ->
    evolves a (asked_with q a)
| evolves_answered a r t : evolves a (answered_with r t a).

(** The least integer that is not below [target * 1.2], as far as
    the product is finite. *)
Definition scaled_ceiling (t : Z) : option Z :=
  match Float.of_int t with
  | Ok f =>
      match Float.mul f Float.f1_2 with
      | S754_zero _ => Some 0
      | S754_finite sign m e =>
          let v := if sign then Z.neg m else Z.pos m in
          Some (if 0 <=? e then v * 2 ^ e else - ((- v) / 2 ^ (- e)))
      | _ => None
      end
  | Raise _ => None
  end.

(** Calls made by the tools: all but those on the LiveKit session. *)
Definition by_tool (c : Call) : Prop :=
  match c with
  | GenerateReply _ | Connect | SessionStart => False
  | _ => True
  end.

(** A step from [s] went well: it returned, the agent evolved, and
    the calls it added to the log are calls of tools. *)
Definition advanced {A} s (r : result A) (s' : Sys E) : Prop :=
  (exists v, r = Ok v) /\ evolves (agent s) (agent s') /\
  exists cs, calls s' = calls s ++ cs /\ Forall by_tool cs.


(** The questions asked are numbered from 0 without gaps, and
    [current_question_index] counts them. *)
Definition questions_numbered a : Prop :=
  Z.of_nat (length (questions_asked (progress a)))
  = current_question_index (progress a) /\
  forall (i : nat) q,
    questions_asked (progress a) !! i = Some q -> q_index q = Z.of_nat i.

(** Until a response is accepted there is no last activity. *)
Definition silent_so_far a : Prop :=
  responses_received (progress a) = [] -> last_activity (progress a) = None.

(** What a call of [_ask_next_question] that leaves the system in [s']
    with the result [r] did to the questions: nothing, or it appended
    one record, numbered by the old index, and raised the index by one;
    the latter whenever it returns a question. *)
Definition ask_counted s (r : result str) (s' : Sys E) : Prop :=
  ((current_question_index (progress (agent s'))
    = current_question_index (progress (agent s)) /\
    questions_asked (progress (agent s'))
    = questions_asked (progress (agent s))) \/
   (current_question_index (progress (agent s'))
    = current_question_index (progress (agent s)) + 1 /\
    exists q,
      questions_asked (progress (agent s'))
      = questions_asked (progress (agent s)) ++ [q] /\
      q_index q = current_question_index (progress (agent s)))) /\
  (forall question,
     r = Ok (question_prompt question) ->
     current_question_index (progress (agent s'))
     = current_question_index (progress (agent s)) + 1 /\
     exists q,
       questions_asked (progress (agent s'))
       = questions_asked (progress (agent s)) ++ [q] /\
       q_index q = current_question_index (progress (agent s)) /\
       q_question q = VStr question).

(** The two readings of the clock made when a response is accepted from
    [s] (the time stamp of the record, then the last activity), and the
    world they leave. *)
Definition accepted_at s : datetime * datetime * World E :=
  let (t1, w1) := utcnow E (world s) in
  let (t2, w2) := utcnow E w1 in
  (t1, t2, w2).

(** The [context] given to the evaluator by the agent [a]. *)
Definition context_of a : EvalContext :=
  {| ctx_target_role := cfg_target_role (config a);
     ctx_experience_level := cfg_experience_level (config a);
     ctx_interview_progress :=
       Z.of_nat (length (responses_received (progress a))) |}.

(** Whether the agent [a] is at one of its first two responses. *)
Definition is_early a : bool :=
  Z.of_nat (length (responses_received (progress a))) <=? 2.

(** The data of the "completed" writes in a log of calls, oldest first. *)
Definition completed_writes (cs : list Call) : list StatusData :=
  omap (fun c =>
          match c with
          | CompleteSession _ d => Some d
          | _ => None
          end) cs.

(** The requests for a final feedback in a log of calls, by the
    duration they were made with. *)
Definition feedback_requests (cs : list Call) : list Z :=
  omap (fun c =>
          match c with
          | GenerateFinalFeedback _ _ _ d => Some d
          | _ => None
          end) cs.

(** What is known when the monitor loop, entered from [s] with the
    limit [md] and the start [t0], is left with [r] in [s']. *)
Definition monitor_left (md t0 : Z) s (r : result MonitorExit) (s' : Sys E)
  : Prop :=
  evolves (agent s) (agent s') /\
  match r with
  | Ok ExitTerminal => is_terminal (state (progress (agent s'))) = true
  | Ok (ExitTimeout t) =>
      md < t - t0 /\
      last (calls s') = Some (GenerateReply TimeReachedInstructions)
  | Ok (ExitInactive t) =>
      t - t0 <= md /\
      last (calls s') = Some (GenerateReply InactiveInstructions) /\
      exists la,
        last_activity (progress (agent s')) = Some la /\
        inactivity_limit < t - la
  | Ok StillRunning => is_terminal (state (progress (agent s'))) = false
  | Raise _ => exists i, last (calls s') = Some (GenerateReply i)
  end.


(** No response accepted yet: no last activity, and the session was
    never told that the candidate is inactive. *)
Definition quiet s : Prop :=
  silent_so_far (agent s) /\
  (responses_received (progress (agent s)) = [] ->
   GenerateReply InactiveInstructions ∉ calls s).

(** The [progress_data] dictionary built from the agent [a] at the
    time [t]. *)
Definition snapshot a (t : datetime) : ProgressData :=
  {| pd_current_question_index := current_question_index (progress a);
     pd_questions_asked := questions_asked (progress a);
     pd_responses_received := responses_received (progress a);
     pd_state := state (progress a);
     pd_start_time := start_time (progress a);
     pd_last_activity := last_activity (progress a);
     pd_updated_at := t |}.

(** The most questions that an agent configured as [a] asks: the larger
    of its floor and of its configured maximum. *)
Definition question_cap a : Z :=
  Z.max (Z.max (default (MIN_QUESTIONS_PER_INTERVIEW E)
                        (cfg_min_questions (config a))) 3)
        (default (MAX_QUESTIONS_PER_INTERVIEW E)
                 (cfg_max_questions (config a))).

(** What the tools and the room events do to the agent object: the
    assignments of [_conclude_interview], of the room handlers, of
    [_ask_next_question] (made only below the cap, with the record
    numbered by the current index) and of [_evaluate_response] (made
    only for the current question). *)
Inductive moves : InterviewAgent -> InterviewAgent -> Prop :=
| moves_refl a : moves a a
| moves_trans a b c : moves a b -> moves b c -> moves a c
| moves_concluding a : moves a (concluding a)
| moves_completed a : moves a (completed a)
| moves_room a ps : moves a (set_room_participants ps a)
| moves_asked a q :
    q_index q = current_question_index (progress a) ->
    Z.of_nat (length (questions_asked (progress a))) < question_cap a ->
    moves a (asked_with q a)
| moves_answered a cq response t t' :
    current_question a = Some cq ->
    moves a (answered_with (response_to cq response t) t' a).

(** The book-keeping of a session is consistent. *)
Record consistent a : Prop := {
  consistent_numbered : questions_numbered a;
  consistent_current :
    current_question a = last (questions_asked (progress a));
  consistent_responses :
    forall r, r ∈ responses_received (progress a) ->
      exists q,
        questions_asked (progress a) !! Z.to_nat (r_question_index r) = Some q
        /\ q_index q = r_question_index r
        /\ q_type q = r_question_type r;
  consistent_activity :
    last_activity (progress a) = None <-> responses_received (progress a) = [];
  consistent_questioning :
    state (progress a) = QUESTIONING -> waiting_for_response a = true;
  consistent_evaluating :
    state (progress a) = EVALUATING ->
    waiting_for_response a = false /\ responses_received (progress a) <> [];
  consistent_waiting :
    waiting_for_response a = true -> current_question a <> None;
  consistent_cap :
    Z.of_nat (length (questions_asked (progress a))) <= question_cap a }.

(** A call that saves progress for the session [sid] carries a
    snapshot with at least one question, its questions counted by its
    index. *)
Definition saved_ok (sid : str) (c : Call) : Prop :=
  match c with
  | SaveProgress sid' d =>
      sid' = sid /\
      Z.of_nat (length (pd_questions_asked d)) = pd_current_question_index d /\
      pd_questions_asked d <> []
  | _ => True
  end.

(** A tool call or a room event from [s] went well: it returned, the
    agent moved, and the calls it added are calls of tools, those that
    save progress carrying a sound snapshot. *)
Definition moved {A} s (r : result A) (s' : Sys E) : Prop :=
  (exists v, r = Ok v) /\ moves (agent s) (agent s') /\
  exists cs, calls s' = calls s ++ cs /\ Forall by_tool cs /\
    (consistent (agent s) -> Forall (saved_ok (session_id (agent s))) cs).

(** The requests made to the LiveKit session in a log of calls. *)
Definition session_requests (cs : list Call) : list Instructions :=
  omap (fun c =>
          match c with
          | GenerateReply i => Some i
          | _ => None
          end) cs.

(** The requests that the monitor loop made to the session when it is
    left with [r], [cs] being the calls made since it was entered. *)
Definition monitor_requested (r : result MonitorExit) (cs : list Call)
  : Prop :=
  match r with
  | Ok (ExitTimeout _) => session_requests cs = [TimeReachedInstructions]
  | Ok (ExitInactive _) => session_requests cs = [InactiveInstructions]
  | Ok _ => session_requests cs = []
  | Raise _ =>
      session_requests cs = [TimeReachedInstructions] \/
      session_requests cs = [InactiveInstructions]
  end.

(** The calls with which a run of the entry point for the session
    [sid] opens. *)
Definition opening (sid : str) : list Call :=
  [Connect; SessionStart; GenerateReply GreetingInstructions;
   StartSession sid].

(** What is known at the end of a run of the entry point that made the
    calls [cs] and ended with [r] in the agent state [a']. *)
Definition entrypoint_ended (sid : str) (r : result unit) a'
    (cs : list Call) : Prop :=
  match r with
  | Ok _ =>
      state (progress a') <> ERROR /\
      exists cs', cs = opening sid ++ cs' /\
                  (length (session_requests cs') <= 1)%nat
  | Raise _ =>
      state (progress a') = ERROR /\
      ((exists n, (0 < n <= 3)%nat /\ cs = take n (opening sid)) \/
       exists cs', cs = opening sid ++ cs' /\
                   (length (session_requests cs') <= 1)%nat)
  end.

(** The text of an awaited response: what a data packet carries when
    it is a "response_submitted" message with a non-empty "response"
    while the agent is waiting for one. *)
Definition awaited_response s (packet : option InboundMessage) : option str :=
  match packet with
  | Some message =>
      let text := default [] (default ∅ (msg_data message) !! "response") in
      if bool_decide (msg_type message = Some (lit "response_submitted"))
         && (str_truthy text && waiting_for_response (agent s))
      then Some text
      else None
  | None => None
  end.

(** The record that [_ask_next_question] builds from the dictionary
    [m] of the question bank, at the time [t] and the index [index]. *)
Definition question_record (m : qdict) (question type : value)
    (t : datetime) (index : Z) : QuestionRecord :=
  {| q_question := question; q_type := type;
     q_difficulty := default (VStr (lit "medium")) (m !! "difficulty");
     q_timestamp := t; q_index := index |}.


(** The events that can conclude an interview: the calls of the two
    tools that reach [_conclude_interview]. *)
Definition may_conclude (ev : Event) : bool :=
  match ev with
  | AskNextQuestion | ConcludeInterview => true
  | _ => false
  end.

(** From [s] to [s'] nothing was completed: State did not become
    COMPLETED and no "completed" write was added to the log. *)
Definition not_completed s (s' : Sys E) : Prop :=
  (state (progress (agent s)) <> COMPLETED ->
   state (progress (agent s')) <> COMPLETED) /\
  exists cs, calls s' = calls s ++ cs /\ completed_writes cs = [].

(** *** The monad *)

Lemma wp_ret {A} (a : A) s Q : Q (Ok a) s -> wp (mret a) s Q.
Proof. exact id. Qed.

Lemma wp_raise {A} e s (Q : result A -> Sys E -> Prop) :
  Q (Raise e) s -> wp (raise e) s Q.
Proof. exact id. Qed.

Lemma wp_lift {A} (r : result A) s Q : Q r s -> wp (lift r) s Q.
Proof. exact id. Qed.

Lemma wp_gets {A} (f : InterviewAgent -> A) s Q :
  Q (Ok (f (agent s))) s -> wp (gets f) s Q.
Proof. exact id. Qed.

Lemma wp_modify f s Q :
  Q (Ok tt) (Build_Sys (f (agent s)) (world s) (calls s)) ->
  wp (modify f) s Q.
Proof. exact id. Qed.

Lemma wp_call {A} c (f : World E -> result A * World E) s Q :
  (forall r w, Q r (Build_Sys (agent s) w (calls s ++ [c]))) ->
  wp (call c f) s Q.
Proof.
  intros H. unfold wp, outcome, exec, call.
  destruct (f (world s)) as [r w]. apply H.
Qed.

Lemma wp_now s Q :
  (forall t w, Q (Ok t) (Build_Sys (agent s) w (calls s))) -> wp now s Q.
Proof.
  intros H. unfold wp, outcome, exec, now.
  destruct (utcnow E (world s)) as [t w]. apply H.
Qed.

Lemma wp_bind {A B} (m : M E A) (f : A -> M E B) s Q :
  wp m s (fun r s' =>
    match r with
    | Ok a => wp (f a) s' Q
    | Raise e => Q (Raise e) s'
    end) ->
  wp (m ≫= f) s Q.
Proof.
  unfold wp, outcome, exec, mbind, M_bind.
  destruct (m s) as [[a|e] s']; simpl; auto.
Qed.

Lemma wp_try {A} (body : M E A) handler s Q :
  wp body s (fun r s' =>
    match r with
    | Ok a => Q (Ok a) s'
    | Raise e => wp (handler e) s' Q
    end) ->
  wp (try_except body handler) s Q.
Proof.
  unfold wp, outcome, exec, try_except.
  destruct (body s) as [[a|e] s']; simpl; auto.
Qed.

Lemma wp_mono {A} (m : M E A) s (Q Q' : result A -> Sys E -> Prop) :
  wp m s Q -> (forall r s', Q r s' -> Q' r s') -> wp m s Q'.
Proof. unfold wp. auto. Qed.

#[local] Arguments wp : simpl never.

Ltac wp_simpl := cbn [agent world calls]; cbv beta match.

Ltac wp_step :=
  wp_simpl;
  lazymatch goal with
  | |- wp (mret _) _ _ => apply wp_ret
  | |- wp (raise _) _ _ => apply wp_raise
  | |- wp (lift _) _ _ => apply wp_lift
  | |- wp (gets _) _ _ => apply wp_gets
  | |- wp (modify _) _ _ => apply wp_modify
  | |- wp (call _ _) _ _ => apply wp_call; intros ? ?
  | |- wp now _ _ => apply wp_now; intros ? ?
  | |- wp (_ ≫= _) _ _ => apply wp_bind
  | |- wp (try_except _ _) _ _ => apply wp_try
  | |- wp (if ?b then _ else _) _ _ => destruct b eqn:?
  | |- wp (match ?x with _ => _ end) _ _ => destruct x eqn:?
  | |- match ?r with Ok _ => _ | Raise _ => _ end =>
      let a := fresh "a" in
      destruct r as [a|?];
      [ lazymatch type of a with unit => destruct a | _ => idtac end | ]
  end.

(** *** What each helper does *)

Lemma wp_duration s Q :
  (forall d w, Q (Ok d) (Build_Sys (agent s) w (calls s))) ->
  wp _get_interview_duration s Q.
Proof.
  intros H. unfold _get_interview_duration. repeat wp_step.
  - apply H.
  - destruct s. apply H.
Qed.

Lemma wp_policy s Q :
  (forall r w, Q r (polled s w)) -> wp _should_continue_interview s Q.
Proof.
  intros H. unfold _should_continue_interview.
  repeat wp_step; try apply H.
  apply wp_duration. intros d w'. repeat wp_step; apply H.
Qed.

Lemma wp_send m s Q : Q (Ok tt) s -> wp (_send_data_message m) s Q.
Proof. exact id. Qed.

Lemma wp_save s Q :
  (forall w d,
     Q (Ok tt) (Build_Sys (agent s) w
                  (calls s ++ [SaveProgress (session_id (agent s)) d]))) ->
  wp _save_interview_progress s Q.
Proof.
  intros H. unfold _save_interview_progress. repeat wp_step; apply H.
Qed.

Lemma wp_status status data s Q :
  (forall w,
     Q (Ok tt) (Build_Sys (agent s) w
                  (calls s ++ status_calls status data (session_id (agent s))))) ->
  wp (_update_interview_status status data) s Q.
Proof.
  intros H. unfold _update_interview_status, status_calls in *.
  repeat wp_step; try apply H.
  specialize (H (world s)). rewrite app_nil_r in H. destruct s. apply H.
Qed.

Lemma wp_early_exit s Q :
  (forall w, Q (Ok tt) (Build_Sys (agent s) w (calls s))) ->
  wp _handle_early_exit s Q.
Proof.
  intros H. unfold _handle_early_exit. do 2 wp_step.
  apply wp_bind, wp_duration. intros d w. wp_simpl.
  apply wp_status. intros w'. wp_simpl.
  unfold status_calls. cbn. rewrite app_nil_r. apply H.
Qed.

Lemma wp_agent_error e s Q :
  (forall w, Q (Ok tt) (Build_Sys (agent s) w (calls s))) ->
  wp (_handle_agent_error e) s Q.
Proof.
  intros H. unfold _handle_agent_error. do 2 wp_step.
  apply wp_status. intros w'. wp_simpl.
  unfold status_calls. cbn. rewrite app_nil_r. apply H.
Qed.


Ltac wp_helper :=
  wp_simpl;
  lazymatch goal with
  | |- wp _get_interview_duration _ _ => apply wp_duration; intros ? ?
  | |- wp _should_continue_interview _ _ => apply wp_policy; intros ? ?
  | |- wp (_send_data_message _) _ _ => apply wp_send
  | |- wp _save_interview_progress _ _ => apply wp_save; intros ? ?
  | |- wp (_update_interview_status _ _) _ _ => apply wp_status; intros ?
  | |- wp _handle_early_exit _ _ => apply wp_early_exit; intros ?
  | |- wp (_handle_agent_error _) _ _ => apply wp_agent_error; intros ?
  end.

Ltac wp_go :=
  repeat first [wp_step | wp_helper];
  unfold polled, id in *; wp_simpl; rewrite <- ?app_assoc.

#[local] Arguments lit : simpl never.
#[local] Arguments conclusion_text : simpl never.
#[local] Arguments question_prompt : simpl never.

Ltac by_tool_calls :=
  cbn [app]; repeat (constructor; [exact I|]); constructor.

(** *** What each tool does *)

Lemma wp_conclude s Q :
  (forall w d,
     Q (Ok conclusion_fallback)
       (Build_Sys (concluding (agent s)) w (calls s ++ [final_call s d]))) ->
  (forall w d d' f,
     Q (Ok (conclusion_text (asked s) d' f))
       (Build_Sys (completed (agent s)) w
          (calls s ++ [final_call s d;
                       CompleteSession (session_id (agent s))
                         (FeedbackData f)]))) ->
  wp _conclude_interview s Q.
Proof.
  intros Hfail Hdone. unfold _conclude_interview.
  wp_go.
  - apply Hdone.
  - apply Hfail.
Qed.

Lemma wp_ask s Q :
  (forall w cs, Forall by_tool cs ->
     Q (Ok question_filler) (Build_Sys (agent s) w (calls s ++ cs))) ->
  (forall w cs, Forall by_tool cs ->
     Q (Ok conclusion_fallback)
       (Build_Sys (concluding (agent s)) w (calls s ++ cs))) ->
  (forall w cs d f, Forall by_tool cs ->
     Q (Ok (conclusion_text (asked s) d f))
       (Build_Sys (completed (agent s)) w (calls s ++ cs))) ->
  (forall w cs q question, Forall by_tool cs ->
     q_index q = current_question_index (progress (agent s)) ->
     q_question q = VStr question ->
     Q (Ok (question_prompt question))
       (Build_Sys (asked_with q (agent s)) w (calls s ++ cs))) ->
  (forall w cs q, Forall by_tool cs ->
     q_index q = current_question_index (progress (agent s)) ->
     slice_to 50 (q_question q) = Raise TypeError ->
     Q (Ok question_filler)
       (Build_Sys (asked_with q (agent s)) w (calls s ++ cs))) ->
  wp _ask_next_question s Q.
Proof.
  intros Hfill Hfail Hdone Hask Hlate. unfold _ask_next_question.
  assert (Hconclude : forall w cs, Forall by_tool cs ->
            wp _conclude_interview (Build_Sys (agent s) w (calls s ++ cs))
              (fun r s'' =>
                 match r with
                 | Ok a => Q (Ok a) s''
                 | Raise _ => wp (mret question_filler) s'' Q
                 end)).
  { intros w cs Hcs. apply wp_conclude; cbn [agent calls].
    - intros w' d. rewrite <- app_assoc. apply Hfail.
      apply Forall_app; split; [exact Hcs|by_tool_calls].
    - intros w' d d' f. unfold asked. cbn [agent]. rewrite <- app_assoc.
      apply Hdone. apply Forall_app; split; [exact Hcs|by_tool_calls]. }
  apply wp_try, wp_bind, wp_policy. intros r w. unfold polled.
  destruct r as [[]|e]; cbn [negb];
    [|apply Hconclude; by_tool_calls|apply wp_ret, Hfill; by_tool_calls].
  apply wp_bind, wp_gets, wp_bind, wp_call. intros r w1.
  cbn [agent world calls id]. rewrite <- app_assoc. cbn [app].
  destruct r as [question_data|e]; [|apply wp_ret, Hfill; by_tool_calls].
  destruct (question_data_truthy question_data) as [qd|];
    [|apply Hconclude; by_tool_calls].
  unfold getitem.
  destruct (qd !! "question") as [question|];
    [|apply wp_bind, wp_raise, wp_ret, Hfill; by_tool_calls].
  apply wp_bind, wp_ret.
  destruct (qd !! "type") as [type|];
    [|apply wp_bind, wp_raise, wp_ret, Hfill; by_tool_calls].
  apply wp_bind, wp_ret, wp_bind, wp_now. intros t w2.
  apply wp_bind, wp_gets. cbn [agent world calls].
  set (q := {| q_question := question; q_type := type;
               q_difficulty :=
                 default (VStr (lit "medium")) (qd !! "difficulty");
               q_timestamp := t;
               q_index := current_question_index (progress (agent s)) |}).
  do 5 apply wp_bind, wp_modify. cbn [agent world calls].
  apply wp_bind, wp_send, wp_bind, wp_save. intros w3 d.
  cbn [agent world calls].
  change (map_progress (set_state QUESTIONING) _) with (asked_with q (agent s)).
  rewrite <- app_assoc. cbn [app].
  apply wp_bind, wp_lift.
  destruct question as [text| |b|n]; cbn [slice_to str_of_value];
    [apply wp_ret, (Hask _ _ q text); [by_tool_calls|reflexivity..]
    |apply wp_ret, (Hlate _ _ q); [by_tool_calls|reflexivity..]..].
Qed.

Lemma wp_evaluate response s Q :
  (current_question (agent s) = None \/ str_truthy (strip response) = false ->
   Q (Ok response_not_caught) s) ->
  (forall cq w cs t t' fb,
     current_question (agent s) = Some cq ->
     str_truthy (strip response) = true ->
     Forall by_tool cs ->
     Q (Ok fb)
       (Build_Sys (answered_with (response_to cq response t) t' (agent s))
          w (calls s ++ cs))) ->
  wp (_evaluate_response response) s Q.
Proof.
  intros Hno Hyes. unfold _evaluate_response. wp_go;
    try (apply Hno; auto; fail);
    try (match goal with
         | H : negb _ = true |- _ => apply negb_true_iff in H
         | H : negb _ = false |- _ => apply negb_false_iff in H
         end);
    try (apply Hno; auto; fail);
    match goal with
    | |- Q _ (Build_Sys ?a' _ _) =>
        match a' with
        | context [append_response ?r] =>
            match a' with
            | context [set_last_activity (Some ?t')] =>
                apply (Hyes _ _ _ (r_timestamp r) t'); auto; by_tool_calls
            end
        end
    end.
Qed.

Lemma provide_hint_pure s : exists text, _provide_hint s = (Ok text, s).
Proof.
  unfold _provide_hint, mbind, M_bind, gets, mret, M_ret.
  destruct (current_question (agent s)); eauto.
Qed.

Lemma handle_clarification_pure request s :
  exists text, _handle_clarification request s = (Ok text, s).
Proof.
  unfold _handle_clarification, mbind, M_bind, gets, mret, M_ret.
  destruct (current_question (agent s)); eauto.
Qed.

Lemma wp_hint s Q : (forall text, Q (Ok text) s) -> wp _provide_hint s Q.
Proof.
  intros H. unfold wp, outcome, exec.
  destruct (provide_hint_pure s) as [text ->]. apply H.
Qed.

Lemma wp_clarification request s Q :
  (forall text, Q (Ok text) s) -> wp (_handle_clarification request) s Q.
Proof.
  intros H. unfold wp, outcome, exec.
  destruct (handle_clarification_pure request s) as [text ->]. apply H.
Qed.

(** *** Every step advances the system *)

Lemma advanced_here {A} s w (v : A) a' cs :
  evolves (agent s) a' -> Forall by_tool cs ->
  advanced s (Ok v) (Build_Sys a' w (calls s ++ cs)).
Proof. intros Ha Hcs. split; [eauto|]. split; [exact Ha|]. eauto. Qed.

Lemma advanced_refl {A} s (v : A) : advanced s (Ok v) s.
Proof.
  split; [eauto|]. split; [constructor|]. exists []. split.
  - symmetry. apply app_nil_r.
  - constructor.
Qed.

Lemma advanced_trans {A B} s (r1 : result A) s1 (r2 : result B) s2 :
  advanced s r1 s1 -> advanced s1 r2 s2 -> advanced s r2 s2.
Proof.
  intros (_ & Ha1 & cs1 & Hc1 & Hf1) (Hr & Ha2 & cs2 & Hc2 & Hf2).
  split; [exact Hr|]. split; [eapply evolves_trans; eauto|].
  exists (cs1 ++ cs2). split.
  - rewrite Hc2, Hc1, app_assoc. reflexivity.
  - apply Forall_app; auto.
Qed.

Lemma evolves_completed a : evolves a (completed a).
Proof.
  apply (evolves_trans _ (concluding a)); unfold completed, concluding;
    apply evolves_state.
Qed.

Lemma ask_advances s : wp _ask_next_question s (advanced s).
Proof.
  apply wp_ask; intros; apply advanced_here; trivial.
  - apply evolves_refl.
  - apply evolves_state.
  - apply evolves_completed.
  - apply evolves_asked. assumption.
  - apply evolves_asked. assumption.
Qed.

Lemma conclude_advances s : wp _conclude_interview s (advanced s).
Proof.
  apply wp_conclude; intros; (apply advanced_here; [|by_tool_calls]).
  - apply evolves_state.
  - apply evolves_completed.
Qed.

Lemma evaluate_advances response s :
  wp (_evaluate_response response) s (advanced s).
Proof.
  apply wp_evaluate; intros.
  - apply advanced_refl.
  - apply advanced_here; [apply evolves_answered|assumption].
Qed.

Lemma hint_advances s : wp _provide_hint s (advanced s).
Proof. apply wp_hint. intros. apply advanced_refl. Qed.

Lemma clarification_advances request s :
  wp (_handle_clarification request) s (advanced s).
Proof. apply wp_clarification. intros. apply advanced_refl. Qed.

Lemma early_exit_advances s : wp _handle_early_exit s (advanced s).
Proof.
  apply wp_early_exit. intros w.
  rewrite <- (app_nil_r (calls s)).
  apply advanced_here; constructor.
Qed.

(** Sequencing: a step that advances, followed by one that does. *)
Lemma wp_then {A B} (m : M E A) (f : A -> M E B) s :
  wp m s (advanced s) ->
  (forall v s', wp (f v) s' (advanced s')) ->
  wp (m ≫= f) s (advanced s).
Proof.
  intros Hm Hf. apply wp_bind. eapply wp_mono; [exact Hm|].
  intros r s' Hadv. destruct Hadv as ([v ->] & Hrest).
  eapply wp_mono; [apply Hf|]. intros r' s'' Hadv'.
  eapply advanced_trans; [|exact Hadv'].
  split; [exists v; reflexivity|exact Hrest].
Qed.

Lemma ret_advances {A} (v : A) s : wp (mret v) s (advanced s).
Proof. apply wp_ret, advanced_refl. Qed.

Lemma data_message_advances message s :
  wp (_handle_data_message message) s (advanced s).
Proof.
  unfold _handle_data_message.
  repeat case_bool_decide.
  - apply wp_bind, wp_gets.
    destruct (_ && _).
    + apply wp_then; [apply evaluate_advances|intros; apply ret_advances].
    + apply ret_advances.
  - apply wp_then; [apply hint_advances|intros; apply ret_advances].
  - apply wp_then; [apply clarification_advances|intros; apply ret_advances].
  - apply ret_advances.
Qed.

Lemma dispatch_advances ev s : wp (dispatch ev) s (advanced s).
Proof.
  destruct ev; cbn [dispatch].
  - apply wp_then; [apply ask_advances|intros; apply ret_advances].
  - apply wp_then; [apply evaluate_advances|intros; apply ret_advances].
  - apply wp_then; [apply hint_advances|intros; apply ret_advances].
  - apply wp_then; [apply clarification_advances|intros; apply ret_advances].
  - apply wp_then; [apply conclude_advances|intros; apply ret_advances].
  - apply wp_modify. rewrite <- (app_nil_r (calls s)).
    apply advanced_here; constructor.
  - unfold on_participant_disconnected. apply wp_then.
    + apply wp_modify. rewrite <- (app_nil_r (calls s)).
      apply advanced_here; constructor.
    + intros _ s'. apply wp_bind, wp_gets. case_bool_decide.
      * apply early_exit_advances.
      * apply ret_advances.
  - unfold on_data_received. apply wp_try. destruct packet.
    + eapply wp_mono; [apply data_message_advances|].
      intros r s' Hadv. pose proof Hadv as ([[] ->] & _). exact Hadv.
    + apply wp_raise, wp_ret, advanced_refl.
Qed.

Lemma dispatch_all_advances evs s : wp (dispatch_all evs) s (advanced s).
Proof.
  revert s. induction evs as [|ev evs IH]; intros s; cbn [dispatch_all].
  - apply ret_advances.
  - apply wp_then; [apply dispatch_advances|intros; apply IH].
Qed.

Lemma step_advances x s : wp (step x) s (advanced s).
Proof.
  destruct x; cbn [step].
  - apply wp_bind, wp_now. intros t w. apply wp_bind, wp_modify, wp_modify.
    rewrite <- (app_nil_r (calls s)). apply advanced_here; [|constructor].
    eapply evolves_trans; constructor.
  - apply wp_bind, wp_modify, wp_agent_error. intros w. cbn.
    rewrite <- (app_nil_r (calls s)). apply advanced_here; constructor.
  - apply dispatch_advances.
Qed.

(** *** The continuation policy *)

Lemma duration_returns s :
  exists d w,
    _get_interview_duration s = (Ok d, Build_Sys (agent s) w (calls s)).
Proof.
  pose proof (wp_duration s
    (fun r s' => exists d w, (r, s') = (Ok d, Build_Sys (agent s) w (calls s))))
    as H.
  unfold wp, outcome, exec in H.
  destruct (_get_interview_duration s) as [r s']. apply H. eauto.
Qed.

Lemma policy_unfold s total w :
  get_total_available_questions E (world s) = (Ok total, w) ->
  _should_continue_interview s =
    if asked s <? min_q s then (Ok true, polled s w)
    else if asked s >=? max_q s total then (Ok false, polled s w)
    else (duration_minutes ← _get_interview_duration;
          target ← lift (Float.of_int (target_minutes s));
          mret (Float.int_lt duration_minutes (Float.mul target Float.f1_2)))
           (polled s w).
Proof.
  intros H.
  unfold _should_continue_interview, mbind at 1 2 3, M_bind at 1 2 3,
    gets, call.
  cbn [agent world calls]. rewrite H.
  unfold asked, min_q, max_q, target_minutes, polled. cbn [agent].
  destruct (_ <? _); [reflexivity|].
  destruct (_ >=? _); reflexivity.
Qed.

Lemma conclude_returns s : exists text, outcome _conclude_interview s = Ok text.
Proof.
  apply (wp_conclude s (fun r _ => exists text, r = Ok text)); eauto.
Qed.

(** The least integer not below a finite float. *)
Lemma int_lt_ceiling n (sign : bool) m e :
  Float.int_lt n (S754_finite sign m e) =
  (n <? (let v := if sign then Z.neg m else Z.pos m in
         if 0 <=? e then v * 2 ^ e else - ((- v) / 2 ^ (- e)))).
Proof.
  cbn [Float.int_lt]. cbv zeta. destruct (0 <=? e) eqn:He; [reflexivity|].
  apply Z.leb_gt in He.
  set (v := if sign then Z.neg m else Z.pos m).
  assert (HK : 0 < 2 ^ (- e)) by (apply Z.pow_pos_nonneg; lia).
  set (K := 2 ^ (- e)) in *.
  pose proof (Z.div_mod (- v) K ltac:(lia)) as Hdm.
  pose proof (Z.mod_pos_bound (- v) K HK) as Hm.
  destruct (n * K <? v) eqn:H1; symmetry;
    [apply Z.ltb_lt; apply Z.ltb_lt in H1|apply Z.ltb_ge; apply Z.ltb_ge in H1];
    nia.
Qed.

Lemma scaled_ceiling_day :
  Forall (fun t => scaled_ceiling t = Some ((6 * t + 4) / 5)) (seqZ 0 1441).
Proof. apply (bool_decide_unpack _). vm_compute. exact I. Qed.

(** For a target of at most a day, the binary64 test
    [elapsed < target * 1.2] is the exact one. *)
Lemma time_test_exact t target d :
  0 <= t <= 1440 -> Float.of_int t = Ok target ->
  Float.int_lt d (Float.mul target Float.f1_2) = (5 * d <? 6 * t).
Proof.
  intros Ht Htarget.
  pose proof scaled_ceiling_day as Hall.
  rewrite Forall_forall in Hall.
  specialize (Hall t). rewrite elem_of_seqZ in Hall.
  specialize (Hall ltac:(lia)).
  unfold scaled_ceiling in Hall. rewrite Htarget in Hall.
  assert (Hdiv : forall c, c = (6 * t + 4) / 5 -> (d <? c) = (5 * d <? 6 * t)).
  { intros c ->.
    pose proof (Z.div_mod (6 * t + 4) 5 ltac:(lia)) as Hdm.
    pose proof (Z.mod_pos_bound (6 * t + 4) 5 ltac:(lia)) as Hm.
    destruct (5 * d <? 6 * t) eqn:H1;
      [apply Z.ltb_lt; apply Z.ltb_lt in H1
      |apply Z.ltb_ge; apply Z.ltb_ge in H1]; lia. }
  destruct (Float.mul target Float.f1_2) as [sg|sg| |sg m e];
    try discriminate.
  - cbn [Float.int_lt]. apply Hdiv. injection Hall as <-. reflexivity.
  - rewrite int_lt_ceiling. apply Hdiv. injection Hall as <-. reflexivity.
Qed.

(** C1 — Continuation policy.  With asked = len(questions_asked),
    min_q = max(config.min_questions, 3) and max_q =
    min(config.max_questions, total available), once the question bank
    has answered the total: the policy says continue whenever
    asked < min_q, whatever the time; it says stop whenever
    asked >= max_q (and asked >= min_q); otherwise it says continue
    exactly when elapsed_minutes < target_minutes * 1.2, a binary64
    test that, for targets up to a day, is 5 * elapsed < 6 * target.
    With min_questions = 3 and max_questions = 5 it continues for
    asked in {0,1,2} and stops at asked = 5.  The policy is the first
    thing [_ask_next_question] evaluates, and a stop makes that call
    conclude instead of asking. *)
Theorem continuation_policy s total w :
  get_total_available_questions E (world s) = (Ok total, w) ->
  (asked s < min_q s ->
   _should_continue_interview s = (Ok true, polled s w)) /\
  (min_q s <= asked s -> max_q s total <= asked s ->
   _should_continue_interview s = (Ok false, polled s w)) /\
  (min_q s <= asked s < max_q s total ->
   forall target, Float.of_int (target_minutes s) = Ok target ->
   exists elapsed s',
     _get_interview_duration (polled s w) = (Ok elapsed, s') /\
     _should_continue_interview s =
       (Ok (Float.int_lt elapsed (Float.mul target Float.f1_2)), s') /\
     (0 <= target_minutes s <= 1440 ->
      Float.int_lt elapsed (Float.mul target Float.f1_2) =
      (5 * elapsed <? 6 * target_minutes s))) /\
  (cfg_min_questions (config (agent s)) = Some 3 ->
   cfg_max_questions (config (agent s)) = Some 5 ->
   (asked s < 3 -> outcome _should_continue_interview s = Ok true) /\
   (asked s = 5 -> outcome _should_continue_interview s = Ok false)) /\
  (outcome _should_continue_interview s = Ok false ->
   _ask_next_question s =
   _conclude_interview (exec _should_continue_interview s)).
Proof.
  intros Htotal. pose proof (policy_unfold s total w Htotal) as Hpolicy.
  assert (Hlow : asked s < min_q s ->
                 _should_continue_interview s = (Ok true, polled s w)).
  { intros H. rewrite Hpolicy.
    destruct (Z.ltb_spec (asked s) (min_q s)); [reflexivity|lia]. }
  assert (Hhigh : min_q s <= asked s -> max_q s total <= asked s ->
                  _should_continue_interview s = (Ok false, polled s w)).
  { intros H1 H2. rewrite Hpolicy.
    destruct (Z.ltb_spec (asked s) (min_q s)); [lia|].
    rewrite Z.geb_leb.
    destruct (Z.leb_spec (max_q s total) (asked s)); [reflexivity|lia]. }
  split; [exact Hlow|]. split; [exact Hhigh|]. split; [|split].
  - intros [H1 H2] target Htarget.
    destruct (duration_returns (polled s w)) as (d & w' & Hd).
    exists d, (Build_Sys (agent (polled s w)) w' (calls (polled s w))).
    split; [exact Hd|]. split.
    + rewrite Hpolicy.
      destruct (Z.ltb_spec (asked s) (min_q s)); [lia|].
      rewrite Z.geb_leb.
      destruct (Z.leb_spec (max_q s total) (asked s)); [lia|].
      unfold mbind, M_bind. rewrite Hd. unfold lift. rewrite Htarget.
      reflexivity.
    + intros Hday. apply time_test_exact; assumption.
  - intros Hmin Hmax. split.
    + intros H. unfold outcome. rewrite Hlow; [reflexivity|].
      unfold min_q. rewrite Hmin. cbn. lia.
    + intros H. unfold outcome. rewrite Hhigh; [reflexivity| |].
      * unfold min_q. rewrite Hmin. cbn. lia.
      * unfold max_q. rewrite Hmax. cbn. lia.
  - intros Hstop. unfold _ask_next_question, try_except, mbind, M_bind.
    unfold outcome, exec in *.
    destruct (_should_continue_interview s) as [r s1]. cbn in Hstop.
    subst r. cbn [negb fst snd].
    destruct (conclude_returns s1) as [text Htext]. unfold outcome in Htext.
    destruct (_conclude_interview s1) as [r s2]. cbn in Htext. subst r.
    reflexivity.
Qed.

(** *** Invariants of the agent *)

Lemma evolves_numbered a a' :
  evolves a a' -> questions_numbered a -> questions_numbered a'.
Proof.
  induction 1 as [| |a st|a t|a ps|a q Hq|a r t]; auto.
  intros [Hlen Hidx]. split.
  - cbn. rewrite length_app, Nat2Z.inj_add, Hlen. reflexivity.
  - intros i q'. cbn. intros Hi.
    destruct (decide (i < length (questions_asked (progress a)))%nat) as [Hlt|Hge].
    + rewrite lookup_app_l in Hi by exact Hlt. eauto.
    + rewrite lookup_app_r in Hi by lia.
      apply list_lookup_singleton_Some in Hi as [Hi ->].
      rewrite Hq, <- Hlen. f_equal. lia.
Qed.

Lemma evolves_grows a a' :
  evolves a a' ->
  current_question_index (progress a) <= current_question_index (progress a')
  /\ questions_asked (progress a) `prefix_of` questions_asked (progress a')
  /\ responses_received (progress a) `prefix_of`
     responses_received (progress a').
Proof.
  induction 1 as [| a b c _ (?&?&?) _ (?&?&?)
                  |a st|a t|a ps|a q Hq|a r t]; cbn.
  - repeat split; try reflexivity; lia.
  - repeat split; try lia; etrans; eauto.
  - repeat split; try reflexivity; lia.
  - repeat split; try reflexivity; lia.
  - repeat split; try reflexivity; lia.
  - repeat split; try reflexivity; try lia. apply prefix_app_r. reflexivity.
  - repeat split; try reflexivity; try lia. apply prefix_app_r. reflexivity.
Qed.

Lemma evolves_silent a a' :
  evolves a a' -> silent_so_far a -> silent_so_far a'.
Proof.
  unfold silent_so_far.
  induction 1 as [| |a st|a t|a ps|a q Hq|a r t]; cbn; auto.
  intros _ H. destruct (responses_received (progress a)); discriminate.
Qed.

Lemma reachable_invariants s :
  reachable s -> questions_numbered (agent s) /\ silent_so_far (agent s).
Proof.
  induction 1 as [sid cfg resume w|s x _ [IH1 IH2]].
  - split.
    + split; [reflexivity|]. intros i q Hi. cbn in Hi.
      rewrite lookup_nil in Hi. discriminate.
    + intros _. reflexivity.
  - destruct (step_advances x s) as (_ & Hev & _).
    split; [eapply evolves_numbered|eapply evolves_silent]; eauto.
Qed.

(** *** The replies of [_ask_next_question] are told apart by their
    first character *)

Lemma Ok_inj {A} (x y : A) : Ok x = Ok y -> x = y.
Proof. congruence. Qed.

Lemma question_prompt_head question :
  head (question_prompt question) = Some 72%N.
Proof. reflexivity. Qed.

Lemma question_prompt_inj q q' :
  question_prompt q = question_prompt q' -> q = q'.
Proof.
  unfold question_prompt. intros H.
  apply app_inv_head in H. do 2 apply app_inv_head in H.
  apply app_inv_tail in H. exact H.
Qed.

Lemma conclusion_text_head n d f : head (conclusion_text n d f) = Some 10%N.
Proof. reflexivity. Qed.

Lemma ask_counts s : wp _ask_next_question s (ask_counted s).
Proof.
  assert (Hasked : forall q,
            q_index q = current_question_index (progress (agent s)) ->
            current_question_index (progress (asked_with q (agent s)))
            = current_question_index (progress (agent s)) + 1 /\
            exists q',
              questions_asked (progress (asked_with q (agent s)))
              = questions_asked (progress (agent s)) ++ [q'] /\
              q_index q' = current_question_index (progress (agent s)))
    by (intros q Hq; split; [reflexivity|]; exists q; auto).
  apply wp_ask; unfold ask_counted; cbn [agent].
  - intros w cs _. split; [auto|]. intros question H.
    apply Ok_inj, (f_equal head) in H.
    rewrite question_prompt_head in H. vm_compute in H. discriminate.
  - intros w cs _. split; [auto|]. intros question H.
    apply Ok_inj, (f_equal head) in H.
    rewrite question_prompt_head in H. vm_compute in H. discriminate.
  - intros w cs d f _. split; [auto|]. intros question H.
    apply Ok_inj, (f_equal head) in H.
    rewrite question_prompt_head, conclusion_text_head in H. discriminate.
  - intros w cs q text _ Hq Htext. split; [right; auto|].
    intros question H. apply Ok_inj, question_prompt_inj in H. subst text.
    split; [reflexivity|]. exists q. auto.
  - intros w cs q _ Hq _. split; [right; auto|]. intros question H.
    apply Ok_inj, (f_equal head) in H.
    rewrite question_prompt_head in H. vm_compute in H. discriminate.
Qed.

(** *** Blank text *)

Lemma lstrip_nil text : lstrip text = [] <-> forallb isspace text = true.
Proof.
  induction text as [|c text IH]; cbn; [tauto|].
  destruct (isspace c); cbn; [exact IH|]. split; discriminate.
Qed.

Lemma lstrip_head text c rest : lstrip text = c :: rest -> isspace c = false.
Proof.
  induction text as [|c' text IH]; cbn; [discriminate|].
  destruct (isspace c') eqn:Hc; [exact IH|]. intros H. congruence.
Qed.

(** [text.strip()] is empty exactly when [text] is empty or white space
    throughout. *)
Lemma strip_blank text :
  str_truthy (strip text) = false <-> forallb isspace text = true.
Proof.
  unfold strip, rstrip. rewrite <- lstrip_nil.
  destruct (lstrip text) as [|c rest] eqn:Hl.
  - cbn. tauto.
  - split; [|discriminate]. intros H.
    assert (Hrev : lstrip (rev (c :: rest)) = []).
    { destruct (lstrip (rev (c :: rest))) as [|c' rest'] eqn:Hr;
        [reflexivity|].
      destruct (rev (c' :: rest')) eqn:Hrr; [|discriminate H].
      apply (f_equal (@length N)) in Hrr. rewrite length_rev in Hrr.
      discriminate Hrr. }
    apply lstrip_nil in Hrev. rewrite forallb_forall in Hrev.
    pose proof (lstrip_head _ _ _ Hl) as Hc.
    rewrite (Hrev c) in Hc; [discriminate|].
    apply in_rev. rewrite rev_involutive. left. reflexivity.
Qed.

Lemma strip_not_blank text :
  str_truthy (strip text) = true <-> forallb isspace text = false.
Proof.
  pose proof (strip_blank text) as H.
  destruct (str_truthy (strip text)), (forallb isspace text);
    intuition discriminate.
Qed.

(** *** Responses *)

Lemma save_returns s :
  exists w d,
    _save_interview_progress s =
    (Ok tt, Build_Sys (agent s) w
              (calls s ++ [SaveProgress (session_id (agent s)) d])).
Proof.
  pose proof (wp_save s (fun r s' => exists w d,
    (r, s') = (Ok tt, Build_Sys (agent s) w
                 (calls s ++ [SaveProgress (session_id (agent s)) d])))) as H.
  unfold wp, outcome, exec in H.
  destruct (_save_interview_progress s) as [r s']. apply H. eauto.
Qed.

(** A response is rejected, and nothing at all changes, when no question
    was asked yet or the text is blank. *)
Lemma evaluate_rejects response s :
  current_question (agent s) = None \/ str_truthy (strip response) = false ->
  _evaluate_response response s = (Ok response_not_caught, s).
Proof.
  intros H. unfold _evaluate_response, try_except, mbind, M_bind, gets.
  destruct (current_question (agent s)) as [cq|]; [|reflexivity].
  destruct H as [H|H]; [discriminate|]. rewrite H. reflexivity.
Qed.

(** Otherwise it is accepted: the record is appended before the
    evaluator is called, and a failure of the evaluator or of the
    feedback generator ends in the acknowledgement. *)
Lemma evaluate_accepts response s cq :
  current_question (agent s) = Some cq ->
  str_truthy (strip response) = true ->
  _evaluate_response response s =
    let '(t1, t2, w2) := accepted_at s in
    let a' := answered_with (response_to cq response t1) t2 (agent s) in
    let c1 := EvaluateResponse (q_question cq) response (q_type cq)
                (context_of a') in
    match evaluate_response E (q_question cq) response (q_type cq)
            (context_of a') w2 with
    | (Raise _, w3) =>
        (Ok response_acknowledged, Build_Sys a' w3 (calls s ++ [c1]))
    | (Ok evaluation, w3) =>
        let c2 := GenerateResponseFeedback evaluation (is_early a') in
        match generate_response_feedback E evaluation (is_early a') w3 with
        | (Raise _, w4) =>
            (Ok response_acknowledged, Build_Sys a' w4 (calls s ++ [c1; c2]))
        | (Ok feedback, w4) =>
            (Ok feedback,
             exec _save_interview_progress
               (Build_Sys a' w4 (calls s ++ [c1; c2])))
        end
    end.
Proof.
  intros Hcq Hresp.
  unfold _evaluate_response, try_except, accepted_at.
  unfold mbind at 1, M_bind at 1, gets at 1. rewrite Hcq, Hresp. cbn [negb].
  unfold mbind at 1, M_bind at 1, now at 1.
  destruct (utcnow E (world s)) as [t1 w1]. cbn [agent world calls].
  unfold mbind at 1 2, M_bind at 1 2, modify at 1, now at 1.
  cbn [agent world calls].
  destruct (utcnow E w1) as [t2 w2]. cbn [agent world calls].
  unfold mbind at 1 2 3 4, M_bind at 1 2 3 4, modify, gets.
  cbn [agent world calls id].
  unfold mbind at 1, M_bind at 1, call at 1. cbn [agent world calls].
  fold (response_to cq response t1).
  change (set_waiting_for_response false _)
    with (answered_with (response_to cq response t1) t2 (agent s)).
  set (a' := answered_with (response_to cq response t1) t2 (agent s)).
  change {| ctx_target_role := _; ctx_experience_level := _;
            ctx_interview_progress := _ |} with (context_of a').
  destruct (evaluate_response E _ _ _ _ w2) as [[evaluation|e] w3];
    [|reflexivity].
  unfold mbind at 1, M_bind at 1, call at 1. cbn [agent world calls].
  change (Z.of_nat (length (responses_received (progress a'))) <=? 2)
    with (is_early a').
  destruct (generate_response_feedback E _ _ w3) as [[feedback|e] w4];
    [|rewrite <- app_assoc; reflexivity].
  unfold mbind, M_bind, _send_data_message, mret, M_ret, exec.
  rewrite <- app_assoc. cbn [app].
  destruct (save_returns (Build_Sys a' w4
              (calls s ++ [EvaluateResponse (q_question cq) response
                             (q_type cq) (context_of a');
                           GenerateResponseFeedback evaluation (is_early a')])))
    as (w5 & d & ->).
  reflexivity.
Qed.

(** C7 — A response survives a failed evaluation.  When a question
    is outstanding and the text is not blank, and the response evaluator
    raises, or it answers and the feedback generator raises, the call
    still appends the response record, returns the generic
    acknowledgement, and leaves State at EVALUATING, not ERROR. *)
Theorem response_kept_on_failure s response cq t1 t2 w2 :
  current_question (agent s) = Some cq ->
  forallb isspace response = false ->
  accepted_at s = (t1, t2, w2) ->
  let a' := answered_with (response_to cq response t1) t2 (agent s) in
  let evaluated :=
    evaluate_response E (q_question cq) response (q_type cq)
      (context_of a') w2 in
  ((exists e, fst evaluated = Raise e) \/
   (exists evaluation e,
      fst evaluated = Ok evaluation /\
      fst (generate_response_feedback E evaluation (is_early a')
             (snd evaluated)) = Raise e)) ->
  let s' := exec (_evaluate_response response) s in
  outcome (_evaluate_response response) s = Ok response_acknowledged /\
  responses_received (progress (agent s'))
  = responses_received (progress (agent s)) ++ [response_to cq response t1] /\
  last_activity (progress (agent s')) = Some t2 /\
  state (progress (agent s')) = EVALUATING /\
  state (progress (agent s')) <> ERROR.
Proof.
  intros Hcq Hresp Hat a' evaluated Hfail s'.
  apply strip_not_blank in Hresp.
  subst s' evaluated. unfold outcome, exec.
  rewrite (evaluate_accepts response s cq Hcq Hresp), Hat.
  cbv beta iota zeta. fold a' in Hfail |- *.
  destruct (evaluate_response E (q_question cq) response (q_type cq)
              (context_of a') w2) as [[evaluation|e] w3]; cbn [fst snd] in *.
  - destruct Hfail as [[e' He']|(ev & e' & Hev & He')]; [discriminate|].
    injection Hev as <-.
    destruct (generate_response_feedback E evaluation (is_early a') w3)
      as [[feedback|e] w4]; cbn [fst] in He'; [discriminate|].
    cbn [fst snd agent]. split_and!; try reflexivity. discriminate.
  - cbn [fst snd agent]. split_and!; try reflexivity. discriminate.
Qed.

(** C4, as the code has it — A response is rejected without any change
    when no question has been asked yet or the text is empty or white
    space throughout: the system is left exactly as it was (the
    responses, the last activity and State included) and the caller
    receives the reply "I didn't catch your response clearly...".  State
    is not consulted.  On the data channel a "response_submitted"
    message is dropped, without a reply, when its text is empty or no
    response is awaited. *)
Theorem response_rejected s response :
  current_question (agent s) = None \/ forallb isspace response = true ->
  _evaluate_response response s = (Ok response_not_caught, s) /\
  forall data : dict,
    default [] (data !! "response") = [] \/
    waiting_for_response (agent s) = false ->
    _handle_data_message
      {| msg_type := Some (lit "response_submitted"); msg_data := Some data |}
      s = (Ok tt, s).
Proof.
  intros H. split.
  - apply evaluate_rejects. rewrite strip_blank. exact H.
  - intros data Hdrop. unfold _handle_data_message.
    cbn [msg_type msg_data from_option id option.default].
    rewrite bool_decide_eq_true_2 by reflexivity.
    unfold mbind, M_bind, gets.
    destruct Hdrop as [->| ->]; [reflexivity|].
    rewrite andb_false_r. reflexivity.
Qed.

(** C5, as the code has it — [_ask_next_question] catches every
    exception: it always returns a string and never raises; State
    afterwards is what it was, or QUESTIONING, CONCLUDING or COMPLETED,
    and is never set to ERROR.  When it returns the filler prompt,
    either the failure came before the question was recorded and the
    agent is as it was, or it came after: the question is recorded, the
    index raised and State QUESTIONING, and only the log line that cuts
    the question failed, which it does for a question that is no
    string.  A throw of the persistence layer does not even reach its
    handler, since [_save_interview_progress] always returns. *)
Theorem ask_catches_everything s :
  let s' := exec _ask_next_question s in
  (exists text, outcome _ask_next_question s = Ok text) /\
  (state (progress (agent s')) = state (progress (agent s)) \/
   state (progress (agent s')) = QUESTIONING \/
   state (progress (agent s')) = CONCLUDING \/
   state (progress (agent s')) = COMPLETED) /\
  (outcome _ask_next_question s = Ok question_filler ->
   agent s' = agent s \/
   exists q,
     agent s' = asked_with q (agent s) /\
     q_index q = current_question_index (progress (agent s)) /\
     slice_to 50 (q_question q) = Raise TypeError) /\
  (forall s0, outcome _save_interview_progress s0 = Ok tt).
Proof.
  split; [|split; [|split]].
  - apply (wp_ask s (fun r _ => exists text, r = Ok text)); eauto.
  - apply (wp_ask s (fun _ s' =>
      state (progress (agent s')) = state (progress (agent s)) \/
      state (progress (agent s')) = QUESTIONING \/
      state (progress (agent s')) = CONCLUDING \/
      state (progress (agent s')) = COMPLETED));
      intros; cbn; auto.
  - apply (wp_ask s (fun r s' =>
      r = Ok question_filler ->
      agent s' = agent s \/
      exists q,
        agent s' = asked_with q (agent s) /\
        q_index q = current_question_index (progress (agent s)) /\
        slice_to 50 (q_question q) = Raise TypeError));
      intros; cbn [agent]; eauto;
      match goal with
      | H : Ok _ = Ok _ |- _ =>
          apply Ok_inj, (f_equal head) in H;
          rewrite ?question_prompt_head, ?conclusion_text_head in H;
          vm_compute in H; discriminate
      end.
  - intros s0. unfold outcome.
    destruct (save_returns s0) as (w & d & ->). reflexivity.
Qed.

Lemma status_completed s data :
  _update_interview_status "completed" (Some data) s =
  (Ok tt,
   Build_Sys (agent s)
     (snd (complete_session E (session_id (agent s)) data (world s)))
     (calls s ++ [CompleteSession (session_id (agent s)) data])).
Proof.
  unfold _update_interview_status, try_except, mbind, M_bind, gets, call.
  rewrite bool_decide_eq_false_2 by discriminate.
  rewrite bool_decide_eq_true_2 by reflexivity.
  cbn [option.default from_option id].
  destruct (complete_session E _ _ (world s)) as [[[]|e] w]; reflexivity.
Qed.

Lemma conclude_unfold s d w1 :
  _get_interview_duration (Build_Sys (concluding (agent s)) (world s) (calls s))
  = (Ok d, Build_Sys (concluding (agent s)) w1 (calls s)) ->
  _conclude_interview s =
    match generate_final_feedback E (questions_asked (progress (agent s)))
            (responses_received (progress (agent s))) (config (agent s)) d w1
    with
    | (Raise _, w2) =>
        (Ok conclusion_fallback,
         Build_Sys (concluding (agent s)) w2 (calls s ++ [final_call s d]))
    | (Ok f, w2) =>
        let data := FeedbackData f in
        let s3 :=
          Build_Sys (completed (agent s))
            (snd (complete_session E (session_id (agent s)) data w2))
            (calls s ++ [final_call s d;
                         CompleteSession (session_id (agent s)) data]) in
        match _get_interview_duration s3 with
        | (Ok d', s4) => (Ok (conclusion_text (asked s) d' f), s4)
        | (Raise _, s4) => (Ok conclusion_fallback, s4)
        end
    end.
Proof.
  intros Hd. unfold _conclude_interview, try_except.
  unfold mbind at 1 2, M_bind at 1 2, modify at 1, gets at 1.
  cbn [agent world calls id]. fold (concluding (agent s)).
  unfold mbind at 1, M_bind at 1. rewrite Hd.
  unfold mbind at 1, M_bind at 1, call at 1. cbn [agent world calls].
  change (GenerateFinalFeedback _ _ _ d) with (final_call s d).
  change (questions_asked (progress (concluding (agent s))))
    with (questions_asked (progress (agent s))).
  change (responses_received (progress (concluding (agent s))))
    with (responses_received (progress (agent s))).
  change (config (concluding (agent s))) with (config (agent s)).
  destruct (generate_final_feedback E _ _ _ d w1) as [[f|e] w2];
    [|reflexivity].
  unfold mbind at 1 2, M_bind at 1 2, _send_data_message, mret at 1,
    M_ret at 1.
  rewrite status_completed. cbn [agent world calls].
  rewrite <- app_assoc. cbn [app].
  unfold mbind at 1 2, M_bind at 1 2, modify, gets. cbn [agent world calls].
  fold (completed (agent s)).
  change (session_id (concluding (agent s))) with (session_id (agent s)).
  change (Z.of_nat (length (questions_asked (progress (completed (agent s))))))
    with (asked s).
  cbv zeta. unfold mbind, M_bind. clear Hd.
  match goal with
  | |- context [_get_interview_duration ?s3] =>
      destruct (_get_interview_duration s3) as [[d'|e] s4]; reflexivity
  end.
Qed.

(** The minutes that [_get_interview_duration] returns from [s]. *)
Lemma duration_value s :
  exists d w,
    _get_interview_duration s = (Ok d, Build_Sys (agent s) w (calls s)) /\
    outcome _get_interview_duration s = Ok d /\
    world (exec _get_interview_duration s) = w.
Proof.
  destruct (duration_returns s) as (d & w & H). exists d, w.
  unfold outcome, exec. rewrite H. auto.
Qed.

(** C2, as the code has it — [_conclude_interview] has no guard on
    State and keeps no feedback it produced before.  Every call, also
    from CONCLUDING or COMPLETED, sets CONCLUDING, reads the duration
    and asks the feedback generator for a final feedback of the current
    history.  If the generator raises, the call returns the fallback
    text, State stays CONCLUDING and nothing is written.  If it answers,
    the call adds exactly one "completed" write carrying the feedback
    it has just received, sets COMPLETED, and returns the summary built
    from that feedback; so each call that completes adds one more
    request and one more "completed" write to those made before. *)
Theorem conclude_every_time s :
  let s0 := Build_Sys (concluding (agent s)) (world s) (calls s) in
  let d := match outcome _get_interview_duration s0 with
           | Ok d => d
           | Raise _ => 0
           end in
  let answer :=
    generate_final_feedback E (questions_asked (progress (agent s)))
      (responses_received (progress (agent s))) (config (agent s)) d
      (world (exec _get_interview_duration s0)) in
  let s' := exec _conclude_interview s in
  match fst answer with
  | Raise _ =>
      _conclude_interview s =
      (Ok conclusion_fallback,
       Build_Sys (concluding (agent s)) (snd answer)
         (calls s ++ [final_call s d])) /\
      completed_writes (calls s') = completed_writes (calls s)
  | Ok f =>
      let data := FeedbackData f in
      let s3 :=
        Build_Sys (completed (agent s))
          (snd (complete_session E (session_id (agent s)) data (snd answer)))
          (calls s ++ [final_call s d;
                       CompleteSession (session_id (agent s)) data]) in
      let d' := match outcome _get_interview_duration s3 with
                | Ok d' => d'
                | Raise _ => 0
                end in
      outcome _conclude_interview s = Ok (conclusion_text (asked s) d' f) /\
      agent s' = completed (agent s) /\
      calls s' = calls s ++ [final_call s d;
                             CompleteSession (session_id (agent s)) data] /\
      completed_writes (calls s') = completed_writes (calls s) ++ [data] /\
      length (feedback_requests (calls s'))
      = S (length (feedback_requests (calls s)))
  end.
Proof.
  intros s0 d answer s'.
  destruct (duration_value s0) as (d0 & w1 & Hd & Hout & Hw).
  assert (Hd0 : d = d0) by (unfold d; rewrite Hout; reflexivity).
  pose proof (conclude_unfold s d0 w1 Hd) as H.
  unfold answer. rewrite Hw, Hd0.
  destruct (generate_final_feedback E _ _ _ d0 w1) as [[f|e] w2];
    cbn [fst snd].
  - cbv zeta in H |- *.
    match type of H with
    | context [_get_interview_duration ?s3] =>
        destruct (duration_value s3) as (d' & w4 & Hd' & Hout' & _);
        rewrite Hd' in H; rewrite Hout'
    end.
    unfold s', outcome, exec. rewrite H. cbn [fst snd agent calls].
    split_and!; try reflexivity.
    + unfold completed_writes. rewrite omap_app. reflexivity.
    + unfold feedback_requests. rewrite omap_app, length_app. cbn. lia.
  - split; [exact H|]. unfold s', exec. rewrite H. cbn [snd calls].
    unfold completed_writes. rewrite omap_app. cbn. apply app_nil_r.
Qed.

(** C3, as the code has it — No tool consults State, so a terminal
    state protects nothing by itself.  In every state, terminal or not:
    [_provide_hint] and [_handle_clarification] change nothing at all;
    [_ask_next_question] leaves responses_received, start_time and
    last_activity as they were; [_evaluate_response] leaves
    questions_asked, current_question_index and start_time as they
    were; [_conclude_interview] leaves every field but State as it
    was. *)
Theorem frame_of_the_tools s :
  exec _provide_hint s = s /\
  (forall request, exec (_handle_clarification request) s = s) /\
  (let p := progress (agent s) in
   let p' := progress (agent (exec _ask_next_question s)) in
   responses_received p' = responses_received p /\
   start_time p' = start_time p /\ last_activity p' = last_activity p) /\
  (forall response,
     let p := progress (agent s) in
     let p' := progress (agent (exec (_evaluate_response response) s)) in
     questions_asked p' = questions_asked p /\
     current_question_index p' = current_question_index p /\
     start_time p' = start_time p) /\
  (let p := progress (agent s) in
   let p' := progress (agent (exec _conclude_interview s)) in
   questions_asked p' = questions_asked p /\
   responses_received p' = responses_received p /\
   current_question_index p' = current_question_index p /\
   start_time p' = start_time p /\ last_activity p' = last_activity p).
Proof.
  split; [|split; [|split; [|split]]].
  - unfold exec. destruct (provide_hint_pure s) as [text ->]. reflexivity.
  - intros request. unfold exec.
    destruct (handle_clarification_pure request s) as [text ->]. reflexivity.
  - apply (wp_ask s (fun _ s' =>
      responses_received (progress (agent s'))
      = responses_received (progress (agent s)) /\
      start_time (progress (agent s')) = start_time (progress (agent s)) /\
      last_activity (progress (agent s'))
      = last_activity (progress (agent s)))); intros; cbn; auto.
  - intros response.
    apply (wp_evaluate response s (fun _ s' =>
      questions_asked (progress (agent s'))
      = questions_asked (progress (agent s)) /\
      current_question_index (progress (agent s'))
      = current_question_index (progress (agent s)) /\
      start_time (progress (agent s')) = start_time (progress (agent s))));
      intros; cbn; auto.
  - apply (wp_conclude s (fun _ s' =>
      questions_asked (progress (agent s'))
      = questions_asked (progress (agent s)) /\
      responses_received (progress (agent s'))
      = responses_received (progress (agent s)) /\
      current_question_index (progress (agent s'))
      = current_question_index (progress (agent s)) /\
      start_time (progress (agent s')) = start_time (progress (agent s)) /\
      last_activity (progress (agent s'))
      = last_activity (progress (agent s)))); intros; cbn; auto 10.
Qed.

(** *** The monitor loop *)

Lemma dispatch_all_returns evs s : outcome (dispatch_all evs) s = Ok tt.
Proof.
  destruct (dispatch_all_advances evs s) as ([[] H] & _). exact H.
Qed.

Lemma monitor_loop_left md t0 sleeps s :
  wp (monitor_loop md (Some t0) sleeps) s (monitor_left md t0 s).
Proof.
  revert s. induction sleeps as [|during rest IH]; intros s;
    cbn [monitor_loop]; apply wp_bind, wp_gets;
    destruct (is_terminal (state (progress (agent s)))) eqn:Hterm;
    try (apply wp_ret; split; [apply evolves_refl|exact Hterm]).
  apply wp_bind. eapply wp_mono; [apply dispatch_all_advances|].
  intros r s1 ([[] ->] & Hev & _).
  apply wp_bind, wp_now. intros t w. cbn [agent world calls].
  destruct (t - t0 >? md) eqn:Hout.
  - rewrite Z.gtb_ltb in Hout. apply Z.ltb_lt in Hout.
    apply wp_bind, wp_call. intros [[]|e] w'.
    + apply wp_ret. split; [exact Hev|]. cbn [calls].
      split; [exact Hout|apply last_snoc].
    + split; [exact Hev|]. eexists. apply last_snoc.
  - rewrite Z.gtb_ltb in Hout. apply Z.ltb_ge in Hout.
    apply wp_bind, wp_gets. cbn [agent].
    destruct (last_activity (progress (agent s1))) as [la|] eqn:Hla.
    + destruct (t - la >? inactivity_limit) eqn:Hidle.
      * rewrite Z.gtb_ltb in Hidle. apply Z.ltb_lt in Hidle.
        apply wp_bind, wp_call. intros [[]|e] w'.
        -- apply wp_ret. split; [exact Hev|]. cbn [calls agent].
           split; [exact Hout|]. split; [apply last_snoc|eauto].
        -- split; [exact Hev|]. eexists. apply last_snoc.
      * eapply wp_mono; [apply IH|]. intros r' s' [Hev' Hr'].
        split; [eapply evolves_trans; eauto|exact Hr'].
    + eapply wp_mono; [apply IH|]. intros r' s' [Hev' Hr'].
      split; [eapply evolves_trans; eauto|exact Hr'].
Qed.

Lemma entrypoint_evolves sleeps s :
  wp (entrypoint sleeps) s (fun _ s' => evolves (agent s) (agent s')).
Proof.
  unfold entrypoint.
  assert (Hfail : forall e s1, evolves (agent s) (agent s1) ->
            wp (modify (map_progress (set_state ERROR));;
                _handle_agent_error e;; (raise e : M E unit)) s1
               (fun _ s' => evolves (agent s) (agent s'))).
  { intros e s1 Hev. apply wp_bind, wp_modify, wp_bind, wp_agent_error.
    intros w. apply wp_raise. cbn [agent].
    eapply evolves_trans; [exact Hev|apply evolves_state]. }
  apply wp_try, wp_bind, wp_call. intros r w.
  destruct r as [[]|e]; [|apply Hfail, evolves_refl].
  apply wp_bind, wp_now. intros t w1. cbn [agent world calls].
  apply wp_bind, wp_modify, wp_bind, wp_modify. cbn [agent world calls].
  set (a2 := map_progress (set_state GREETING)
               (map_progress (set_start_time (Some t)) (agent s))).
  assert (Hev2 : evolves (agent s) a2)
    by (eapply evolves_trans; [apply evolves_start|apply evolves_state]).
  apply wp_bind, wp_call. intros r w2.
  destruct r as [[]|e]; [|apply Hfail; exact Hev2].
  apply wp_bind, wp_call. intros r w3.
  destruct r as [[]|e]; [|apply Hfail; exact Hev2].
  apply wp_bind, wp_status. intros w4. cbn [agent calls].
  apply wp_bind. unfold _monitor_interview_progress.
  apply wp_bind, wp_gets, wp_bind, wp_lift.
  destruct (timedelta_minutes _) as [md|e]; [|apply Hfail; exact Hev2].
  apply wp_bind, wp_gets. cbn [agent].
  eapply wp_mono; [apply (monitor_loop_left md t)|].
  intros [exit|e] s' [Hev' _];
    [|apply Hfail]; eapply evolves_trans; eauto.
Qed.

(** C8 — Questions are counted without gaps.  In every system reached
    from a new agent by any sequence of steps (the entry point
    connecting or failing, tool calls, room events),
    len(questions_asked) = current_question_index and the record at
    position i carries index i; no step decreases the index or drops a
    question; every call of [_ask_next_question] either leaves the
    index and the list as they were or raises the index by exactly 1
    and appends one record, whose index is the old value; and a call
    that returns a question does the latter, the record carrying the
    question returned.  The numbering also holds at the end of every run of the entry point
    from a new agent, whatever happens during its sleeps. *)
Theorem question_index_invariant s :
  reachable s ->
  questions_numbered (agent s) /\
  (forall x,
     let s' := exec (step x) s in
     questions_numbered (agent s') /\
     current_question_index (progress (agent s))
     <= current_question_index (progress (agent s')) /\
     questions_asked (progress (agent s))
       `prefix_of` questions_asked (progress (agent s'))) /\
  (let s' := exec _ask_next_question s in
   ((current_question_index (progress (agent s'))
     = current_question_index (progress (agent s)) /\
     questions_asked (progress (agent s'))
     = questions_asked (progress (agent s))) \/
    (current_question_index (progress (agent s'))
     = current_question_index (progress (agent s)) + 1 /\
     exists q,
       questions_asked (progress (agent s'))
       = questions_asked (progress (agent s)) ++ [q] /\
       q_index q = current_question_index (progress (agent s)))) /\
   (forall question,
      outcome _ask_next_question s = Ok (question_prompt question) ->
      current_question_index (progress (agent s'))
      = current_question_index (progress (agent s)) + 1 /\
      exists q,
        questions_asked (progress (agent s'))
        = questions_asked (progress (agent s)) ++ [q] /\
        q_index q = current_question_index (progress (agent s)) /\
        q_question q = VStr question)) /\
  (forall sid cfg resume (w : World E) sleeps,
     questions_numbered
       (agent (exec (entrypoint sleeps) (initial sid cfg resume w)))).
Proof.
  intros Hs. destruct (reachable_invariants s Hs) as [Hnum _].
  split; [exact Hnum|]. split; [|split; [apply ask_counts|]].
  - intros x s'. destruct (step_advances x s) as (_ & Hev & _).
    split; [eapply evolves_numbered; eauto|].
    destruct (evolves_grows _ _ Hev) as (? & ? & _). auto.
  - intros sid cfg resume w sleeps.
    eapply evolves_numbered; [apply entrypoint_evolves|].
    apply (reachable_invariants (initial sid cfg resume w)).
    apply reachable_initial.
Qed.


Lemma evaluate_returns response s :
  exists text, outcome (_evaluate_response response) s = Ok text.
Proof.
  apply (wp_evaluate response s (fun r _ => exists text, r = Ok text)); eauto.
Qed.


Lemma accepted_last_activity response s cq t1 t2 w2 :
  current_question (agent s) = Some cq ->
  str_truthy (strip response) = true ->
  accepted_at s = (t1, t2, w2) ->
  agent (exec (_evaluate_response response) s)
  = answered_with (response_to cq response t1) t2 (agent s).
Proof.
  intros Hcq Hresp Hat. unfold exec.
  rewrite (evaluate_accepts response s cq Hcq Hresp), Hat.
  cbv beta iota zeta.
  destruct (evaluate_response E _ _ _ _ w2) as [[evaluation|e] w3];
    [|reflexivity].
  destruct (generate_response_feedback E _ _ w3) as [[feedback|e] w4];
    [|reflexivity].
  cbn [snd]. unfold exec.
  match goal with
  | |- agent (snd (_save_interview_progress ?s0)) = _ =>
      destruct (save_returns s0) as (w5 & d & ->)
  end.
  reflexivity.
Qed.


(** *** Sessions without a response *)

Lemma by_tool_not_inactive cs :
  Forall by_tool cs -> GenerateReply InactiveInstructions ∉ cs.
Proof.
  intros Hcs Hin. rewrite Forall_forall in Hcs.
  exact (Hcs _ Hin).
Qed.

Lemma quiet_moves s s' :
  quiet s -> evolves (agent s) (agent s') ->
  (exists cs, calls s' = calls s ++ cs /\
              GenerateReply InactiveInstructions ∉ cs) ->
  quiet s'.
Proof.
  intros [Hsilent Hcalls] Hev (cs & Hcs & Hno). split.
  - eapply evolves_silent; eauto.
  - intros Hnone. destruct (evolves_grows _ _ Hev) as (_ & _ & Hpre).
    rewrite Hnone in Hpre. apply prefix_nil_inv in Hpre.
    rewrite Hcs. intros Hin. apply elem_of_app in Hin as [Hin|Hin].
    + exact (Hcalls Hpre Hin).
    + exact (Hno Hin).
Qed.

Lemma advanced_quiet {A} s (r : result A) s' :
  advanced s r s' -> quiet s -> quiet s'.
Proof.
  intros (_ & Hev & cs & Hcs & Htool) Hq.
  eapply quiet_moves; eauto using by_tool_not_inactive.
Qed.

Lemma quiet_call s c w :
  quiet s -> c <> GenerateReply InactiveInstructions ->
  quiet (Build_Sys (agent s) w (calls s ++ [c])).
Proof.
  intros Hq Hc. eapply quiet_moves; [exact Hq|apply evolves_refl|].
  exists [c]. split; [reflexivity|].
  intros Hin. apply list_elem_of_singleton in Hin. congruence.
Qed.

Lemma quiet_set s a' w :
  quiet s -> evolves (agent s) a' -> quiet (Build_Sys a' w (calls s)).
Proof.
  intros Hq Hev. eapply quiet_moves; [exact Hq|exact Hev|].
  exists []. split; [symmetry; apply app_nil_r|apply not_elem_of_nil].
Qed.

Lemma reachable_quiet s : reachable s -> quiet s.
Proof.
  induction 1 as [sid cfg resume w|s x _ IH].
  - split; [intros _; reflexivity|]. intros _. apply not_elem_of_nil.
  - eapply advanced_quiet; [apply step_advances|exact IH].
Qed.

Lemma monitor_loop_quiet md t0 sleeps s :
  quiet s ->
  wp (monitor_loop md t0 sleeps) s (fun r s' =>
    quiet s' /\
    (responses_received (progress (agent s')) = [] ->
     forall t, r <> Ok (ExitInactive t))).
Proof.
  revert s. induction sleeps as [|during rest IH]; intros s Hq;
    cbn [monitor_loop]; apply wp_bind, wp_gets;
    destruct (is_terminal (state (progress (agent s))));
    try (apply wp_ret; split; [exact Hq|discriminate]).
  apply wp_bind. eapply wp_mono; [apply dispatch_all_advances|].
  intros r s1 Hadv. pose proof (advanced_quiet _ _ _ Hadv Hq) as Hq1.
  destruct Hadv as ([[] ->] & _).
  apply wp_bind, wp_now. intros t w. cbn [agent world calls].
  assert (Hq2 : quiet (Build_Sys (agent s1) w (calls s1)))
    by (apply quiet_set; [exact Hq1|apply evolves_refl]).
  destruct t0 as [t0|]; [|split; [exact Hq2|discriminate]].
  destruct (t - t0 >? md).
  - apply wp_bind, wp_call. intros [[]|e] w'.
    + apply wp_ret. split; [|discriminate].
      apply (quiet_call _ _ w' Hq2). discriminate.
    + split; [|discriminate]. apply (quiet_call _ _ w' Hq2). discriminate.
  - apply wp_bind, wp_gets. cbn [agent].
    destruct (last_activity (progress (agent s1))) as [la|] eqn:Hla;
      [|apply IH; exact Hq2].
    destruct (t - la >? inactivity_limit); [|apply IH; exact Hq2].
    assert (Hsome : responses_received (progress (agent s1)) <> []).
    { intros Hnone. destruct Hq1 as [Hsilent _].
      rewrite (Hsilent Hnone) in Hla. discriminate. }
    assert (Hq3 : forall w',
      quiet (Build_Sys (agent s1) w'
               (calls s1 ++ [GenerateReply InactiveInstructions]))).
    { intros w'. destruct Hq1 as [Hsilent _]. split; [exact Hsilent|].
      intros Hnone. destruct (Hsome Hnone). }
    apply wp_bind, wp_call. intros [[]|e] w'.
    + apply wp_ret. split; [apply Hq3|]. intros Hnone. destruct (Hsome Hnone).
    + split; [apply Hq3|discriminate].
Qed.

Lemma entrypoint_quiet sleeps s :
  quiet s -> wp (entrypoint sleeps) s (fun _ s' => quiet s').
Proof.
  intros Hq. unfold entrypoint.
  assert (Hfail : forall e s1, quiet s1 ->
            wp (modify (map_progress (set_state ERROR));;
                _handle_agent_error e;; (raise e : M E unit)) s1
               (fun _ s' => quiet s')).
  { intros e s1 Hq1. apply wp_bind, wp_modify, wp_bind, wp_agent_error.
    intros w. apply wp_raise. cbn [agent calls].
    apply quiet_set; [exact Hq1|apply evolves_state]. }
  apply wp_try, wp_bind, wp_call.
  intros r w. pose proof (quiet_call s Connect w Hq ltac:(discriminate)) as Hq1.
  destruct r as [[]|e]; [|apply Hfail; exact Hq1].
  apply wp_bind, wp_now. intros t w1. cbn [agent world calls].
  apply wp_bind, wp_modify, wp_bind, wp_modify. cbn [agent world calls].
  set (a2 := map_progress (set_state GREETING)
               (map_progress (set_start_time (Some t)) (agent s))).
  assert (Hq2 : quiet (Build_Sys a2 w1 (calls s ++ [Connect]))).
  { apply (quiet_set _ a2 w1 Hq1). cbn [agent].
    eapply evolves_trans; [apply evolves_start|apply evolves_state]. }
  apply wp_bind, wp_call. intros r w2.
  pose proof (quiet_call _ SessionStart w2 Hq2 ltac:(discriminate)) as Hq3.
  cbn [agent calls] in Hq3.
  destruct r as [[]|e]; [|apply Hfail; exact Hq3].
  apply wp_bind, wp_call. intros r w3.
  pose proof (quiet_call _ (GenerateReply GreetingInstructions) w3 Hq3
                ltac:(discriminate)) as Hq4.
  cbn [agent calls] in Hq4.
  destruct r as [[]|e]; [|apply Hfail; exact Hq4].
  apply wp_bind, wp_status. intros w4. cbn [agent calls].
  pose proof (quiet_call _ (StartSession (session_id a2)) w4 Hq4
                ltac:(discriminate)) as Hq5.
  cbn [agent calls] in Hq5.
  apply wp_bind. unfold _monitor_interview_progress.
  apply wp_bind, wp_gets, wp_bind, wp_lift.
  destruct (timedelta_minutes _) as [md|e]; [|apply Hfail; exact Hq5].
  apply wp_bind, wp_gets.
  eapply wp_mono; [apply monitor_loop_quiet; exact Hq5|].
  intros [exit|e] s' [Hq' _]; [exact Hq'|apply Hfail; exact Hq'].
Qed.

(** C10 — Silence alone never ends a session.  While no response has
    been accepted, last_activity is None, as it is from construction,
    and the session has never been told that the candidate is inactive;
    this holds in every system reached by any sequence of steps.  The
    monitor loop entered from such a system is never left by its
    inactivity branch if no response has been accepted by then.  And a
    whole run of the entry point from a new agent that ends without an
    accepted response has last_activity None and no inactivity request
    among its calls, however the clock advances. *)
Theorem silent_session_never_inactive :
  (forall s, reachable s -> quiet s) /\
  (forall s md t0 sleeps,
     quiet s ->
     let s' := exec (monitor_loop md t0 sleeps) s in
     responses_received (progress (agent s')) = [] ->
     forall t, outcome (monitor_loop md t0 sleeps) s <> Ok (ExitInactive t)) /\
  (forall sid cfg resume (w : World E) sleeps,
     let s' := exec (entrypoint sleeps) (initial sid cfg resume w) in
     responses_received (progress (agent s')) = [] ->
     last_activity (progress (agent s')) = None /\
     GenerateReply InactiveInstructions ∉ calls s').
Proof.
  split; [exact reachable_quiet|]. split.
  - intros s md t0 sleeps Hq.
    destruct (monitor_loop_quiet md t0 sleeps s Hq) as [_ H]. exact H.
  - intros sid cfg resume w sleeps s' Hnone.
    assert (Hq : quiet s').
    { apply (entrypoint_quiet sleeps (initial sid cfg resume w)).
      apply reachable_quiet, reachable_initial. }
    destruct Hq as [Hsilent Hcalls]. auto.
Qed.

(** A status other than "started" and "completed" is ignored. *)
Lemma update_status_ignores status data s :
  status <> "started"%string -> status <> "completed"%string ->
  _update_interview_status status data s = (Ok tt, s).
Proof.
  intros H1 H2. unfold _update_interview_status, try_except, mbind, M_bind, gets.
  rewrite !bool_decide_eq_false_2 by assumption. reflexivity.
Qed.

(** The early exit reads the clock and makes no call. *)
Lemma early_exit_calls s :
  calls (exec _handle_early_exit s) = calls s /\
  agent (exec _handle_early_exit s) = agent s.
Proof.
  apply (wp_early_exit s (fun _ s' => calls s' = calls s /\ agent s' = agent s)).
  auto.
Qed.

(** *** How the agent moves *)

Lemma save_unfold s :
  _save_interview_progress s =
    let (t, w) := utcnow E (world s) in
    let d := snapshot (agent s) t in
    (Ok tt, Build_Sys (agent s)
              (snd (save_progress E (session_id (agent s)) d w))
              (calls s ++ [SaveProgress (session_id (agent s)) d])).
Proof.
  unfold _save_interview_progress, try_except, mbind, M_bind, gets, now, call.
  cbn [agent world calls id].
  destruct (utcnow E (world s)) as [t w]. cbn [agent world calls].
  fold (snapshot (agent s) t).
  destruct (save_progress E _ _ w) as [[[]|e] w']; reflexivity.
Qed.

Lemma wp_save_exact s Q :
  (forall t w,
     Q (Ok tt) (Build_Sys (agent s) w
                  (calls s ++ [SaveProgress (session_id (agent s))
                                 (snapshot (agent s) t)]))) ->
  wp _save_interview_progress s Q.
Proof.
  intros H. unfold wp, outcome, exec. rewrite save_unfold.
  destruct (utcnow E (world s)) as [t w]. apply H.
Qed.

Lemma wp_policy_cap s Q :
  (forall r w,
     (r = Ok true -> asked s < question_cap (agent s)) -> Q r (polled s w)) ->
  wp _should_continue_interview s Q.
Proof.
  intros H. unfold _should_continue_interview.
  apply wp_bind, wp_gets, wp_bind, wp_call. intros r w.
  destruct r as [total|e]; [|apply H; discriminate].
  apply wp_bind, wp_gets. cbn [agent].
  destruct (_ <? _) eqn:Hlow.
  { apply wp_ret, H. intros _. apply Z.ltb_lt in Hlow.
    unfold asked, question_cap. lia. }
  destruct (_ >=? _) eqn:Hhigh; [apply wp_ret, H; discriminate|].
  rewrite Z.geb_leb in Hhigh. apply Z.leb_gt in Hhigh.
  assert (Hcap : asked s < question_cap (agent s))
    by (unfold asked, question_cap; lia).
  apply wp_bind, wp_duration. intros d w'. apply wp_bind, wp_lift.
  destruct (Float.of_int _); [apply wp_ret|]; apply H; auto.
Qed.

Lemma moves_evolves a a' : moves a a' -> evolves a a'.
Proof.
  induction 1 as [| | | | |a q Hq Hcap|a cq response t t' Hcq].
  - apply evolves_refl.
  - eapply evolves_trans; eauto.
  - apply evolves_state.
  - apply evolves_completed.
  - apply evolves_room.
  - apply evolves_asked. exact Hq.
  - apply evolves_answered.
Qed.

(** Nothing that the tools or the room events do touches the identity
    of the session, its configuration, the resume or the start time. *)
Lemma moves_frame a a' :
  moves a a' ->
  session_id a' = session_id a /\ config a' = config a /\
  user_resume a' = user_resume a /\
  start_time (progress a') = start_time (progress a).
Proof.
  induction 1 as [|a b c _ (?&?&?&?) _ (?&?&?&?)| | | | |]; cbn; auto.
  repeat split; congruence.
Qed.

Lemma moves_not_error a a' :
  moves a a' -> state (progress a) <> ERROR -> state (progress a') <> ERROR.
Proof. induction 1; cbn; auto; discriminate. Qed.

Lemma consistent_new sid cfg resume :
  consistent (InterviewAgent_new sid cfg resume).
Proof.
  split; cbn; try discriminate; try tauto.
  - split; [reflexivity|]. intros i q Hi. cbn in Hi.
    rewrite lookup_nil in Hi. discriminate.
  - intros r Hr. apply elem_of_nil in Hr. destruct Hr.
  - unfold question_cap. lia.
Qed.

Lemma consistent_state a st :
  st <> QUESTIONING -> st <> EVALUATING ->
  consistent a -> consistent (map_progress (set_state st) a).
Proof.
  intros Hq He [Hnum Hcur Hresp Hact _ _ Hwait Hcap].
  split; cbn; auto; intros; congruence.
Qed.

Lemma consistent_start a t :
  consistent a -> consistent (map_progress (set_start_time t) a).
Proof. intros []. split; cbn; auto. Qed.

Lemma moves_consistent a a' : moves a a' -> consistent a -> consistent a'.
Proof.
  induction 1 as [| | | | |a q Hq Hcap|a cq response t t' Hcq]; auto.
  - apply consistent_state; discriminate.
  - intros Ha. unfold completed, concluding.
    do 2 (apply consistent_state; try discriminate). exact Ha.
  - intros []. split; cbn; auto.
  - intros [Hnum Hcur Hresp Hact _ _ _ _].
    split; cbn; auto; try discriminate.
    + apply (evolves_numbered a); [apply evolves_asked; exact Hq|exact Hnum].
    + symmetry. apply last_snoc.
    + intros r Hr. destruct (Hresp r Hr) as (q' & Hq' & Hrest).
      exists q'. split; [|exact Hrest].
      apply lookup_app_l_Some. exact Hq'.
    + rewrite length_app. unfold question_cap in *. cbn in *. lia.
  - intros [Hnum Hcur Hresp Hact _ _ _ Hcap].
    split; cbn; auto; try discriminate.
    + intros r Hr. apply elem_of_app in Hr as [Hr|Hr]; [auto|].
      apply list_elem_of_singleton in Hr as ->. cbn.
      exists cq. rewrite Hcq, last_lookup in Hcur. symmetry in Hcur.
      destruct Hnum as [_ Hidx]. rewrite (Hidx _ _ Hcur), Nat2Z.id.
      auto.
    + split; [discriminate|].
      intros H. destruct (responses_received (progress a)); discriminate.
    + intros _. split; [reflexivity|].
      intros H. destruct (responses_received (progress a)); discriminate.
Qed.

Lemma moved_here {A} s w (v : A) a' cs :
  moves (agent s) a' -> Forall by_tool cs ->
  (consistent (agent s) -> Forall (saved_ok (session_id (agent s))) cs) ->
  moved s (Ok v) (Build_Sys a' w (calls s ++ cs)).
Proof.
  intros Ha Hcs Hsaved. split; [eauto|]. split; [exact Ha|]. eauto.
Qed.

Lemma moved_refl {A} s (v : A) : moved s (Ok v) s.
Proof.
  split; [eauto|]. split; [constructor|]. exists []. split; [|split].
  - symmetry. apply app_nil_r.
  - constructor.
  - constructor.
Qed.

Lemma moved_trans {A B} s (r1 : result A) s1 (r2 : result B) s2 :
  moved s r1 s1 -> moved s1 r2 s2 -> moved s r2 s2.
Proof.
  intros (_ & Ha1 & cs1 & Hc1 & Hf1 & Hs1) (Hr & Ha2 & cs2 & Hc2 & Hf2 & Hs2).
  split; [exact Hr|]. split; [eapply moves_trans; eauto|].
  exists (cs1 ++ cs2). split; [|split].
  - rewrite Hc2, Hc1, app_assoc. reflexivity.
  - apply Forall_app; auto.
  - intros Hcons. apply Forall_app. split; [auto|].
    destruct (moves_frame _ _ Ha1) as [<- _].
    apply Hs2. eapply moves_consistent; eauto.
Qed.

(** Calls that do not save progress need no snapshot. *)
Ltac no_snapshot := intros _; cbn [app]; repeat (constructor; [exact I|]); constructor.

Lemma conclude_moved s : wp _conclude_interview s (moved s).
Proof.
  apply wp_conclude; intros; (apply moved_here; [|by_tool_calls|no_snapshot]).
  - apply moves_concluding.
  - apply moves_completed.
Qed.

Lemma hint_moved s : wp _provide_hint s (moved s).
Proof. apply wp_hint. intros. apply moved_refl. Qed.

Lemma clarification_moved request s :
  wp (_handle_clarification request) s (moved s).
Proof. apply wp_clarification. intros. apply moved_refl. Qed.

Lemma early_exit_moved s : wp _handle_early_exit s (moved s).
Proof.
  apply wp_early_exit. intros w.
  rewrite <- (app_nil_r (calls s)).
  apply moved_here; [constructor|constructor|no_snapshot].
Qed.

Lemma wp_moved_then {A B} (m : M E A) (f : A -> M E B) s :
  wp m s (moved s) ->
  (forall v s', wp (f v) s' (moved s')) ->
  wp (m ≫= f) s (moved s).
Proof.
  intros Hm Hf. apply wp_bind. eapply wp_mono; [exact Hm|].
  intros r s' Hadv. destruct Hadv as ([v ->] & Hrest).
  eapply wp_mono; [apply Hf|]. intros r' s'' Hadv'.
  eapply moved_trans; [|exact Hadv'].
  split; [exists v; reflexivity|exact Hrest].
Qed.

Lemma ret_moved {A} (v : A) s : wp (mret v) s (moved s).
Proof. apply wp_ret, moved_refl. Qed.

Lemma ask_moved s : wp _ask_next_question s (moved s).
Proof.
  unfold _ask_next_question.
  assert (Hconclude : forall w cs,
            Forall by_tool cs -> Forall (saved_ok (session_id (agent s))) cs ->
            wp _conclude_interview (Build_Sys (agent s) w (calls s ++ cs))
              (fun r s' =>
                 match r with
                 | Ok v => moved s (Ok v) s'
                 | Raise _ => wp (mret question_filler) s' (moved s)
                 end)).
  { intros w cs Hcs Hsaved. eapply wp_mono; [apply conclude_moved|].
    intros r s' Hmoved. pose proof Hmoved as ([v ->] & _).
    eapply moved_trans; [|exact Hmoved].
    apply (moved_here s w tt); [apply moves_refl|exact Hcs|auto]. }
  assert (Hfill : forall w cs,
            Forall by_tool cs -> Forall (saved_ok (session_id (agent s))) cs ->
            moved s (Ok question_filler)
              (Build_Sys (agent s) w (calls s ++ cs))).
  { intros w cs Hcs Hsaved. apply moved_here; [apply moves_refl|exact Hcs|auto]. }
  apply wp_try, wp_bind, wp_policy_cap. intros r w Hcap. unfold polled.
  destruct r as [[]|e]; cbn [negb];
    [|apply Hconclude; by_tool_calls|apply wp_ret, Hfill; by_tool_calls].
  specialize (Hcap eq_refl).
  apply wp_bind, wp_gets, wp_bind, wp_call. intros r w1.
  cbn [agent world calls id]. rewrite <- app_assoc. cbn [app].
  destruct r as [question_data|e]; [|apply wp_ret, Hfill; by_tool_calls].
  destruct (question_data_truthy question_data) as [qd|];
    [|apply Hconclude; by_tool_calls].
  unfold getitem.
  destruct (qd !! "question") as [question|];
    [|apply wp_bind, wp_raise, wp_ret, Hfill; by_tool_calls].
  apply wp_bind, wp_ret.
  destruct (qd !! "type") as [type|];
    [|apply wp_bind, wp_raise, wp_ret, Hfill; by_tool_calls].
  apply wp_bind, wp_ret, wp_bind, wp_now. intros t w2.
  apply wp_bind, wp_gets. cbn [agent world calls].
  set (q := {| q_question := question; q_type := type;
               q_difficulty :=
                 default (VStr (lit "medium")) (qd !! "difficulty");
               q_timestamp := t;
               q_index := current_question_index (progress (agent s)) |}).
  do 5 apply wp_bind, wp_modify. cbn [agent world calls].
  apply wp_bind, wp_send, wp_bind, wp_save_exact. intros t' w3.
  cbn [agent world calls].
  change (map_progress (set_state QUESTIONING) _) with (asked_with q (agent s)).
  rewrite <- app_assoc. cbn [app].
  assert (Hmoved : forall text : str,
            moved s (Ok text)
              (Build_Sys (asked_with q (agent s)) w3
                 (calls s ++
                  [GetTotalAvailableQuestions;
                   GetNextQuestion
                     (current_question_index (progress (agent s)))
                     (responses_received (progress (agent s)))
                     (user_resume (agent s));
                   SaveProgress (session_id (agent s))
                     (snapshot (asked_with q (agent s)) t')]))).
  { intros text. apply moved_here.
    - apply moves_asked; [reflexivity|exact Hcap].
    - by_tool_calls.
    - intros [[Hlen _] _ _ _ _ _ _ _].
      repeat (constructor; [exact I|]). constructor; [|constructor].
      cbn. split; [reflexivity|]. split.
      + rewrite length_app, Nat2Z.inj_add, Hlen. reflexivity.
      + intros H.
        destruct (questions_asked (progress (agent s))); discriminate. }
  apply wp_bind, wp_lift.
  destruct (slice_to 50 question); [apply wp_ret|apply wp_ret]; apply Hmoved.
Qed.

Lemma evaluate_moved response s :
  wp (_evaluate_response response) s (moved s).
Proof.
  unfold _evaluate_response.
  apply wp_try, wp_bind, wp_gets.
  destruct (current_question (agent s)) as [cq|] eqn:Hcq;
    [|apply wp_ret, moved_refl].
  destruct (negb _); [apply wp_ret, moved_refl|].
  apply wp_bind, wp_now. intros t w.
  apply wp_bind, wp_modify, wp_bind, wp_now. intros t' w'.
  do 3 apply wp_bind, wp_modify. cbn [agent world calls].
  apply wp_bind, wp_gets. cbn [agent world calls id].
  fold (response_to cq response t).
  change (set_waiting_for_response false _)
    with (answered_with (response_to cq response t) t' (agent s)).
  set (a' := answered_with (response_to cq response t) t' (agent s)).
  assert (Hmoves : moves (agent s) a') by (apply moves_answered; exact Hcq).
  apply wp_bind, wp_call. intros r w1. cbn [agent world calls].
  destruct r as [evaluation|e];
    [|apply wp_ret, moved_here; [exact Hmoves|by_tool_calls|no_snapshot]].
  apply wp_bind, wp_call. intros r w2. cbn [agent world calls].
  rewrite <- app_assoc. cbn [app].
  destruct r as [feedback|e];
    [|apply wp_ret, moved_here; [exact Hmoves|by_tool_calls|no_snapshot]].
  apply wp_bind, wp_send, wp_bind, wp_save_exact. intros t'' w3.
  cbn [agent world calls]. apply wp_ret.
  rewrite <- app_assoc. cbn [app].
  apply moved_here; [exact Hmoves|by_tool_calls|].
  intros [[Hlen _] Hcur _ _ _ _ _ _].
  repeat (constructor; [exact I|]). constructor; [|constructor].
  cbn. split; [reflexivity|]. split; [exact Hlen|].
  intros H. rewrite Hcq, H in Hcur. discriminate.
Qed.

Lemma data_message_moved message s :
  wp (_handle_data_message message) s (moved s).
Proof.
  unfold _handle_data_message.
  repeat case_bool_decide.
  - apply wp_bind, wp_gets.
    destruct (_ && _).
    + apply wp_moved_then; [apply evaluate_moved|intros; apply ret_moved].
    + apply ret_moved.
  - apply wp_moved_then; [apply hint_moved|intros; apply ret_moved].
  - apply wp_moved_then; [apply clarification_moved|intros; apply ret_moved].
  - apply ret_moved.
Qed.

Lemma dispatch_moved ev s : wp (dispatch ev) s (moved s).
Proof.
  destruct ev; cbn [dispatch].
  - apply wp_moved_then; [apply ask_moved|intros; apply ret_moved].
  - apply wp_moved_then; [apply evaluate_moved|intros; apply ret_moved].
  - apply wp_moved_then; [apply hint_moved|intros; apply ret_moved].
  - apply wp_moved_then; [apply clarification_moved|intros; apply ret_moved].
  - apply wp_moved_then; [apply conclude_moved|intros; apply ret_moved].
  - apply wp_modify. rewrite <- (app_nil_r (calls s)).
    apply moved_here; [constructor|constructor|no_snapshot].
  - unfold on_participant_disconnected. apply wp_moved_then.
    + apply wp_modify. rewrite <- (app_nil_r (calls s)).
      apply moved_here; [constructor|constructor|no_snapshot].
    + intros _ s'. apply wp_bind, wp_gets. case_bool_decide.
      * apply early_exit_moved.
      * apply ret_moved.
  - unfold on_data_received. apply wp_try. destruct packet.
    + eapply wp_mono; [apply data_message_moved|].
      intros r s' Hadv. pose proof Hadv as ([[] ->] & _). exact Hadv.
    + apply wp_raise, wp_ret, moved_refl.
Qed.

Lemma dispatch_all_moved evs s : wp (dispatch_all evs) s (moved s).
Proof.
  revert s. induction evs as [|ev evs IH]; intros s; cbn [dispatch_all].
  - apply ret_moved.
  - apply wp_moved_then; [apply dispatch_moved|intros; apply IH].
Qed.

(** The invariant of a session in progress: the book-keeping is
    consistent and every snapshot saved so far was sound. *)
Lemma reachable_consistent s :
  reachable s ->
  consistent (agent s) /\ Forall (saved_ok (session_id (agent s))) (calls s).
Proof.
  induction 1 as [sid cfg resume w|s x _ [IH1 IH2]].
  - split; [apply consistent_new|constructor].
  - change (wp (step x) s (fun _ s' =>
              consistent (agent s') /\
              Forall (saved_ok (session_id (agent s'))) (calls s'))).
    destruct x as [|e|ev]; cbn [step].
    + apply wp_bind, wp_now. intros t w.
      apply wp_bind, wp_modify, wp_modify. cbn [agent calls].
      split; [|exact IH2].
      apply consistent_state; try discriminate.
      apply consistent_start. exact IH1.
    + apply wp_bind, wp_modify, wp_agent_error. intros w.
      cbn [agent calls]. split; [|exact IH2].
      apply consistent_state; try discriminate. exact IH1.
    + destruct (dispatch_moved ev s) as (_ & Hmoves & cs & Hcs & _ & Hsaved).
      split; [eapply moves_consistent; eauto|].
      destruct (moves_frame _ _ Hmoves) as [-> _].
      rewrite Hcs. apply Forall_app. auto.
Qed.

(** *** The requests to the session *)

Lemma by_tool_requests cs : Forall by_tool cs -> session_requests cs = [].
Proof.
  induction 1 as [|c cs Hc _ IH]; [reflexivity|].
  unfold session_requests in *. cbn. rewrite IH.
  destruct c; cbn in *; try reflexivity; destruct Hc.
Qed.

Lemma session_requests_app cs cs' :
  session_requests (cs ++ cs') = session_requests cs ++ session_requests cs'.
Proof. apply omap_app. Qed.

Lemma monitor_requested_app r cs cs' :
  Forall by_tool cs -> monitor_requested r cs' -> monitor_requested r (cs ++ cs').
Proof.
  intros Hcs. unfold monitor_requested.
  rewrite session_requests_app, (by_tool_requests cs Hcs). exact id.
Qed.

Lemma monitor_loop_moved md t0 sleeps s :
  wp (monitor_loop md (Some t0) sleeps) s (fun r s' =>
    moves (agent s) (agent s') /\
    exists cs, calls s' = calls s ++ cs /\ monitor_requested r cs /\
      (consistent (agent s) -> Forall (saved_ok (session_id (agent s))) cs)).
Proof.
  revert s. induction sleeps as [|during rest IH]; intros s;
    cbn [monitor_loop]; apply wp_bind, wp_gets;
    destruct (is_terminal (state (progress (agent s)))) eqn:Hterm;
    try (apply wp_ret; split; [apply moves_refl|];
         exists []; split; [symmetry; apply app_nil_r|];
         split; [reflexivity|constructor]).
  apply wp_bind. eapply wp_mono; [apply dispatch_all_moved|].
  intros r s1 ([[] ->] & Hmv & cs1 & Hcs1 & Htool & Hsaved).
  apply wp_bind, wp_now. intros t w. cbn [agent world calls].
  assert (Hleave : forall i exit,
            monitor_requested (Ok exit) [GenerateReply i] ->
            (i = TimeReachedInstructions \/ i = InactiveInstructions) ->
            wp (call (GenerateReply i) (generate_reply E i);; mret exit)
               (Build_Sys (agent s1) w (calls s1))
               (fun r s' =>
                  moves (agent s) (agent s') /\
                  exists cs, calls s' = calls s ++ cs /\
                    monitor_requested r cs /\
                    (consistent (agent s) ->
                     Forall (saved_ok (session_id (agent s))) cs))).
  { intros i exit Hreq Hi. apply wp_bind, wp_call. intros [[]|e] w';
      [apply wp_ret|]; (split; [exact Hmv|]);
      exists (cs1 ++ [GenerateReply i]); cbn [calls];
      (split; [rewrite Hcs1, app_assoc; reflexivity|]);
      (split; [apply monitor_requested_app; trivial
              |intros Hc; apply Forall_app; split; [auto|];
               constructor; [exact I|constructor]]).
    destruct Hi as [-> | ->]; [left|right]; reflexivity. }
  assert (Hnext : wp (monitor_loop md (Some t0) rest)
                     (Build_Sys (agent s1) w (calls s1))
                     (fun r s' =>
                        moves (agent s) (agent s') /\
                        exists cs, calls s' = calls s ++ cs /\
                          monitor_requested r cs /\
                          (consistent (agent s) ->
                           Forall (saved_ok (session_id (agent s))) cs))).
  { eapply wp_mono; [apply IH|]. cbn [agent calls].
    intros r' s' (Hmv' & cs2 & Hcs2 & Hreq & Hsaved').
    split; [eapply moves_trans; eauto|].
    exists (cs1 ++ cs2). split; [rewrite Hcs2, Hcs1, app_assoc; reflexivity|].
    split; [apply monitor_requested_app; trivial|].
    intros Hc. apply Forall_app. split; [auto|].
    destruct (moves_frame _ _ Hmv) as [<- _].
    apply Hsaved'. eapply moves_consistent; eauto. }
  destruct (t - t0 >? md).
  - apply Hleave; [reflexivity|auto].
  - apply wp_bind, wp_gets. cbn [agent].
    destruct (last_activity (progress (agent s1))) as [la|]; [|exact Hnext].
    destruct (t - la >? inactivity_limit); [|exact Hnext].
    apply Hleave; [reflexivity|auto].
Qed.

Lemma monitor_requested_once r cs :
  monitor_requested r cs -> (length (session_requests cs) <= 1)%nat.
Proof.
  destruct r as [[]|e]; cbn; try (intros ->; cbn; lia).
  intros [-> | ->]; cbn; lia.
Qed.

Lemma opening_saved sid n : Forall (saved_ok sid) (take n (opening sid)).
Proof. apply Forall_take. repeat (constructor; [exact I|]). constructor. Qed.

Lemma entrypoint_ends sleeps s :
  wp (entrypoint sleeps) s (fun r s' =>
    exists cs, calls s' = calls s ++ cs /\
      entrypoint_ended (session_id (agent s)) r (agent s') cs /\
      (consistent (agent s) ->
       consistent (agent s') /\
       Forall (saved_ok (session_id (agent s))) cs)).
Proof.
  unfold entrypoint.
  assert (Hfail : forall e a' w cs,
            (exists n, (0 < n <= 3)%nat /\
                       cs = take n (opening (session_id (agent s)))) \/
            (exists cs', cs = opening (session_id (agent s)) ++ cs' /\
                         (length (session_requests cs') <= 1)%nat) ->
            (consistent (agent s) ->
             consistent a' /\
             Forall (saved_ok (session_id (agent s))) cs) ->
            wp (modify (map_progress (set_state ERROR));;
                _handle_agent_error e;; (raise e : M E unit))
               (Build_Sys a' w (calls s ++ cs))
               (fun r s' =>
                  exists cs, calls s' = calls s ++ cs /\
                    entrypoint_ended (session_id (agent s)) r (agent s') cs /\
                    (consistent (agent s) ->
                     consistent (agent s') /\
                     Forall (saved_ok (session_id (agent s))) cs))).
  { intros e a' w cs Hcs Hcons.
    apply wp_bind, wp_modify, wp_bind, wp_agent_error.
    intros w'. apply wp_raise. cbn [agent calls].
    exists cs. split; [reflexivity|].
    split; [split; [reflexivity|exact Hcs]|].
    intros Hc. destruct (Hcons Hc) as [Ha' Hsaved]. split; [|exact Hsaved].
    apply consistent_state; try discriminate. exact Ha'. }
  apply wp_try, wp_bind, wp_call. intros r w.
  destruct r as [[]|e].
  2:{ apply Hfail; [left; exists 1%nat; split; [lia|reflexivity]|].
      intros Hc. split; [exact Hc|apply (opening_saved _ 1)]. }
  apply wp_bind, wp_now. intros t w1. cbn [agent world calls].
  apply wp_bind, wp_modify, wp_bind, wp_modify. cbn [agent world calls].
  set (a2 := map_progress (set_state GREETING)
               (map_progress (set_start_time (Some t)) (agent s))).
  assert (Ha2 : consistent (agent s) -> consistent a2).
  { intros Hc. apply consistent_state; try discriminate.
    apply consistent_start. exact Hc. }
  apply wp_bind, wp_call. intros r w2. cbn [agent world calls].
  rewrite <- app_assoc. cbn [app].
  destruct r as [[]|e].
  2:{ apply Hfail; [left; exists 2%nat; split; [lia|reflexivity]|].
      intros Hc. split; [auto|apply (opening_saved _ 2)]. }
  apply wp_bind, wp_call. intros r w3. cbn [agent world calls].
  rewrite <- app_assoc. cbn [app].
  destruct r as [[]|e].
  2:{ apply Hfail; [left; exists 3%nat; split; [lia|reflexivity]|].
      intros Hc. split; [auto|apply (opening_saved _ 3)]. }
  apply wp_bind, wp_status. intros w4. cbn [agent world calls].
  rewrite <- app_assoc. cbn [app status_calls bool_decide].
  change (status_calls "started" None (session_id a2))
    with [StartSession (session_id (agent s))].
  cbn [app]. fold (opening (session_id (agent s))).
  apply wp_bind. unfold _monitor_interview_progress.
  apply wp_bind, wp_gets, wp_bind, wp_lift.
  destruct (timedelta_minutes _) as [md|e].
  2:{ rewrite <- (app_nil_r (opening _)). apply Hfail.
      - right. exists []. split; [reflexivity|cbn; lia].
      - intros Hc. split; [auto|]. rewrite app_nil_r.
        apply (opening_saved _ 4). }
  apply wp_bind, wp_gets. cbn [agent].
  eapply wp_mono; [apply (monitor_loop_moved md t)|].
  cbn [agent calls].
  intros r s' (Hmv & cs & Hcs & Hreq & Hsaved).
  assert (Hcons : consistent (agent s) ->
                  consistent (agent s') /\
                  Forall (saved_ok (session_id (agent s)))
                    (opening (session_id (agent s)) ++ cs)).
  { intros Hc. split; [eapply moves_consistent; eauto|].
    apply Forall_app. split; [apply (opening_saved _ 4)|].
    apply (Hsaved (Ha2 Hc)). }
  destruct r as [exit|e].
  - apply wp_ret. exists (opening (session_id (agent s)) ++ cs).
    split; [rewrite Hcs, <- app_assoc; reflexivity|].
    split; [|exact Hcons].
    split; [apply (moves_not_error _ _ Hmv); discriminate|].
    exists cs. split; [reflexivity|].
    apply (monitor_requested_once _ _ Hreq).
  - destruct s' as [a' w' cs'']. cbn [calls agent] in *. subst cs''.
    rewrite <- app_assoc. apply Hfail; [|exact Hcons]. right.
    exists cs. split; [reflexivity|].
    apply (monitor_requested_once _ _ Hreq).
Qed.

(** *** Properties of every session *)


(** X2 — Questions and responses stay linked.  In every system reached
    from a new agent, the current question is the last question asked
    (none when no question was asked), and every response recorded
    refers, by its question index, to a question that was asked, whose
    index and type it carries. *)
Theorem session_bookkeeping s :
  reachable s ->
  current_question (agent s) = last (questions_asked (progress (agent s))) /\
  forall r, r ∈ responses_received (progress (agent s)) ->
    exists q,
      questions_asked (progress (agent s)) !! Z.to_nat (r_question_index r)
      = Some q /\
      q_index q = r_question_index r /\ q_type q = r_question_type r.
Proof.
  intros Hs. destruct (reachable_consistent s Hs) as [[] _]. auto.
Qed.

(** X3 — State and flags agree.  In every system reached from a new
    agent: in State QUESTIONING the agent is waiting for a response to
    a current question; in State EVALUATING it is not waiting and at
    least one response is recorded; whenever it is waiting there is a
    current question; and a last activity is recorded exactly when a
    response is. *)
Theorem state_flags s :
  reachable s ->
  let a := agent s in
  (state (progress a) = QUESTIONING ->
   waiting_for_response a = true /\ current_question a <> None) /\
  (state (progress a) = EVALUATING ->
   waiting_for_response a = false /\ responses_received (progress a) <> []) /\
  (waiting_for_response a = true -> current_question a <> None) /\
  (last_activity (progress a) = None <-> responses_received (progress a) = []).
Proof.
  intros Hs a. destruct (reachable_consistent s Hs) as [[] _].
  split_and!; auto.
Qed.

(** A call of [_ask_next_question] as the steps below run it: its two
    parts without anything in between. *)
Lemma ask_in_two_parts s : _ask_next_question s = ask_without_overlap s.
Proof.
  cbv beta iota zeta delta
    [ask_without_overlap ask_begin ask_resume _ask_next_question try_except
     mbind M_bind gets request call lift mret M_ret id].
  destruct (_should_continue_interview s) as [[[]|e] s1];
    cbv beta iota delta [negb].
  - destruct (get_next_question E _ _ _ (world s1)) as [[qd|e] w];
      reflexivity.
  - destruct (_conclude_interview s1) as [[text|e] s2]; reflexivity.
  - reflexivity.
Qed.

(** X4 — The number of questions is capped when the calls of
    [_ask_next_question] do not overlap.  A call is suspended at its
    await on the question bank, after the policy was consulted and
    before the question is recorded; the steps below run each call with
    its two parts together.  In every system reached from a new agent
    by such steps, the questions asked number at most
    max(max(min_questions, 3), max_questions) of the configuration
    (with the defaults of the settings for missing keys), whatever the
    question bank reports as available and whatever the clock says; a
    call of [_ask_next_question] that returns a question was made
    strictly below that cap; and at the cap the policy says stop as
    soon as the question bank answers how many questions it has.  Two
    calls that overlap at the await can exceed the cap. *)
Theorem question_cap_respected s :
  reachable s ->
  _ask_next_question s = ask_without_overlap s /\
  asked s <= question_cap (agent s) /\
  (forall question,
     outcome _ask_next_question s = Ok (question_prompt question) ->
     asked s < question_cap (agent s)) /\
  (forall total w,
     get_total_available_questions E (world s) = (Ok total, w) ->
     asked s = question_cap (agent s) ->
     _should_continue_interview s = (Ok false, polled s w)).
Proof.
  intros Hs. destruct (reachable_consistent s Hs) as [Hcons _].
  split; [apply ask_in_two_parts|].
  split; [apply Hcons|]. split.
  - intros question Hout.
    destruct (ask_counts s) as [_ Hasked].
    destruct (Hasked question Hout) as (_ & q & Hqs & _).
    destruct (ask_moved s) as (_ & Hmv & _).
    pose proof (moves_consistent _ _ Hmv Hcons) as [_ _ _ _ _ _ _ Hcap].
    destruct (moves_frame _ _ Hmv) as (_ & Hcfg & _).
    unfold question_cap in *. rewrite Hcfg in Hcap.
    rewrite Hqs, length_app in Hcap. unfold asked. cbn in Hcap. lia.
  - intros total w Htotal Hcap.
    rewrite (policy_unfold s total w Htotal).
    unfold question_cap in Hcap. unfold min_q, max_q.
    destruct (Z.ltb_spec (asked s)
                (Z.max (default (MIN_QUESTIONS_PER_INTERVIEW E)
                          (cfg_min_questions (config (agent s)))) 3));
      [lia|].
    rewrite Z.geb_leb.
    destruct (Z.leb_spec
                (Z.min (default (MAX_QUESTIONS_PER_INTERVIEW E)
                          (cfg_max_questions (config (agent s)))) total)
                (asked s)); [reflexivity|lia].
Qed.

(** X5 — Every snapshot saved is counted.  In every system reached
    from a new agent, each call of [save_progress] made so far was made
    for the agent's own session and carried a snapshot with at least
    one question, whose questions are counted by its question index. *)
Theorem saved_snapshots_sound s sid d :
  reachable s ->
  SaveProgress sid d ∈ calls s ->
  sid = session_id (agent s) /\
  Z.of_nat (length (pd_questions_asked d)) = pd_current_question_index d /\
  pd_questions_asked d <> [].
Proof.
  intros Hs Hin. destruct (reachable_consistent s Hs) as [_ Hsaved].
  rewrite Forall_forall in Hsaved. exact (Hsaved _ Hin).
Qed.

Lemma evolves_frame a a' :
  evolves a a' ->
  session_id a' = session_id a /\ config a' = config a /\
  user_resume a' = user_resume a.
Proof.
  induction 1 as [|a b c _ (?&?&?) _ (?&?&?)| | | | |]; cbn; auto.
  repeat split; congruence.
Qed.

(** X6 — The identity of a session is never reassigned.  No tool call
    and no room event changes the session id, the configuration, the
    resume or the start time of the agent; and a whole run of the entry
    point, whatever happens during it, leaves the session id, the
    configuration and the resume as they were. *)
Theorem session_identity_kept s :
  (forall ev,
     let a' := agent (exec (dispatch ev) s) in
     session_id a' = session_id (agent s) /\
     config a' = config (agent s) /\
     user_resume a' = user_resume (agent s) /\
     start_time (progress a') = start_time (progress (agent s))) /\
  (forall sleeps,
     let a' := agent (exec (entrypoint sleeps) s) in
     session_id a' = session_id (agent s) /\
     config a' = config (agent s) /\
     user_resume a' = user_resume (agent s)).
Proof.
  split.
  - intros ev a'. destruct (dispatch_moved ev s) as (_ & Hmv & _).
    apply (moves_frame _ _ Hmv).
  - intros sleeps a'. apply evolves_frame, entrypoint_evolves.
Qed.

(** *** The paths of the tools *)




(** X8 — An evaluated response.  When a question is outstanding, the
    text is not blank, and the evaluator and the feedback generator
    both answer, the call returns exactly the generator's feedback and
    records the response; the evaluator is told the number of responses
    including this one, the generator is told that the interview is at
    an early stage exactly for the first two responses recorded, and the
    last call saves the progress that includes the response, whether
    or not the interview service accepts it. *)
Theorem response_feedback_path s response cq t1 t2 w2 evaluation w3
    feedback w4 :
  current_question (agent s) = Some cq ->
  forallb isspace response = false ->
  accepted_at s = (t1, t2, w2) ->
  let a' := answered_with (response_to cq response t1) t2 (agent s) in
  evaluate_response E (q_question cq) response (q_type cq)
    (context_of a') w2 = (Ok evaluation, w3) ->
  generate_response_feedback E evaluation (is_early a') w3
  = (Ok feedback, w4) ->
  let s' := exec (_evaluate_response response) s in
  let received :=
    Z.of_nat (length (responses_received (progress (agent s)))) in
  outcome (_evaluate_response response) s = Ok feedback /\
  agent s' = a' /\
  calls s' =
    calls s ++
    [EvaluateResponse (q_question cq) response (q_type cq) (context_of a');
     GenerateResponseFeedback evaluation (is_early a');
     SaveProgress (session_id (agent s)) (snapshot a' (fst (utcnow E w4)))] /\
  ctx_interview_progress (context_of a') = received + 1 /\
  is_early a' = (received <? 2).
Proof.
  intros Hcq Hresp Hat a' Hev Hfb s' received.
  apply strip_not_blank in Hresp.
  pose proof (evaluate_accepts response s cq Hcq Hresp) as H.
  rewrite Hat in H. cbv beta iota zeta in H. fold a' in H.
  rewrite Hev, Hfb in H.
  unfold s', outcome, exec at 1 2. rewrite H. cbn [fst snd].
  unfold exec. rewrite save_unfold. cbn [agent world calls].
  destruct (utcnow E w4) as [t w5]. cbn [fst snd agent calls].
  rewrite <- app_assoc.
  assert (Hlen : Z.of_nat (length (responses_received (progress a')))
                 = received + 1).
  { unfold a', received. cbn. rewrite length_app, Nat2Z.inj_add.
    reflexivity. }
  split_and!; try reflexivity.
  - exact Hlen.
  - unfold is_early. rewrite Hlen.
    destruct (Z.leb_spec (received + 1) 2), (Z.ltb_spec received 2);
      try reflexivity; lia.
Qed.

Lemma data_channel_unfold s packet :
  on_data_received packet s =
    (Ok tt,
     match awaited_response s packet with
     | Some text => exec (_evaluate_response text) s
     | None => s
     end).
Proof.
  unfold exec, on_data_received, try_except, awaited_response.
  destruct packet as [message|]; [|reflexivity].
  unfold _handle_data_message. cbv zeta.
  case_bool_decide as Htype; cbn [andb].
  - unfold mbind at 1, M_bind at 1, gets. cbn [agent].
    destruct (str_truthy _ && waiting_for_response (agent s));
      [|reflexivity].
    match goal with
    | |- context [_evaluate_response ?text] =>
        destruct (evaluate_returns text s) as [reply Hreply];
        unfold outcome in Hreply; unfold mbind, M_bind;
        destruct (_evaluate_response text s) as [r s']
    end.
    cbn in Hreply. subst r. reflexivity.
  - case_bool_decide.
    + unfold mbind, M_bind.
      destruct (provide_hint_pure s) as [text ->]. reflexivity.
    + case_bool_decide; [|reflexivity].
      unfold mbind, M_bind.
      match goal with
      | |- context [_handle_clarification ?request] =>
          destruct (handle_clarification_pure request s) as [text ->]
      end.
      reflexivity.
Qed.

(** X9 — The data channel.  A packet from the room never raises, also
    when it is not JSON.  It changes the system only when it is a
    "response_submitted" message with a non-empty "response" while the
    agent is waiting for a response, and then it does what the tool
    [_evaluate_response] does with that text; a hint or a
    clarification requested over the data channel, a message of an
    unknown type and a response that is not awaited leave the agent,
    the world and the log of calls exactly as they were.  Once such a
    response to the current question has been accepted, the agent no
    longer waits, and no further packet changes anything until another
    question is asked: over the data channel a question is answered at
    most once. *)
Theorem data_channel_effect s packet :
  outcome (on_data_received packet) s = Ok tt /\
  exec (on_data_received packet) s =
    match awaited_response s packet with
    | Some text => exec (_evaluate_response text) s
    | None => s
    end /\
  (forall text cq,
     awaited_response s packet = Some text ->
     current_question (agent s) = Some cq ->
     forallb isspace text = false ->
     let s' := exec (on_data_received packet) s in
     responses_received (progress (agent s')) <>
     responses_received (progress (agent s)) /\
     waiting_for_response (agent s') = false /\
     forall packet', on_data_received packet' s' = (Ok tt, s')).
Proof.
  assert (Hexec : exec (on_data_received packet) s =
                  match awaited_response s packet with
                  | Some text => exec (_evaluate_response text) s
                  | None => s
                  end)
    by (unfold exec at 1; rewrite data_channel_unfold; reflexivity).
  split; [unfold outcome; rewrite data_channel_unfold; reflexivity|].
  split; [exact Hexec|].
  intros text cq Hawaited Hcq Htext s'. apply strip_not_blank in Htext.
  assert (Hs' : s' = exec (_evaluate_response text) s)
    by (unfold s'; rewrite Hexec, Hawaited; reflexivity).
  destruct (accepted_at s) as [[t1 t2] w2] eqn:Hat.
  pose proof (accepted_last_activity text s cq t1 t2 w2 Hcq Htext Hat) as Ha.
  rewrite <- Hs' in Ha.
  assert (Hwaiting : waiting_for_response (agent s') = false)
    by (rewrite Ha; reflexivity).
  split; [|split; [exact Hwaiting|]].
  - rewrite Ha. cbn. intros H.
    apply (f_equal (@length ResponseRecord)) in H.
    rewrite length_app in H. cbn in H. lia.
  - intros packet'. rewrite data_channel_unfold.
    unfold awaited_response. destruct packet' as [message|]; [|reflexivity].
    cbv zeta. rewrite Hwaiting, !andb_false_r. reflexivity.
Qed.

(** X10 — Room events touch only the set of participants.  A
    participant who connects is added to the set and one who
    disconnects is removed from it, and that is all: the progress of the
    interview (State included), the current question and the waiting
    flag are unchanged and no call is made, so a disconnection, even of
    the last participant, persists nothing and ends nothing. *)
Theorem room_events_frame s identity :
  let s1 := exec (on_participant_connected identity) s in
  let s2 := exec (on_participant_disconnected identity) s in
  (room_participants (agent s1) = {[ identity ]} ∪ room_participants (agent s)
   /\ agent s1 = set_room_participants (room_participants (agent s1)) (agent s)
   /\ world s1 = world s /\ calls s1 = calls s) /\
  (room_participants (agent s2) = room_participants (agent s) ∖ {[ identity ]}
   /\ agent s2 = set_room_participants (room_participants (agent s2)) (agent s)
   /\ calls s2 = calls s) /\
  identity ∉ room_participants
               (agent (exec (on_participant_disconnected identity) s1)).
Proof.
  assert (Hleft : forall s0,
            wp (on_participant_disconnected identity) s0 (fun _ s2 =>
              room_participants (agent s2)
              = room_participants (agent s0) ∖ {[ identity ]} /\
              agent s2 = set_room_participants
                           (room_participants (agent s2)) (agent s0) /\
              calls s2 = calls s0)).
  { intros s0. unfold on_participant_disconnected.
    apply wp_bind, wp_modify, wp_bind, wp_gets.
    cbn [agent world calls]. case_bool_decide.
    - apply wp_early_exit. intros w. cbn. auto.
    - apply wp_ret. cbn. auto. }
  intros s1 s2. split; [|split].
  - cbn. auto.
  - apply Hleft.
  - destruct (Hleft s1) as (Hroom & _). rewrite Hroom.
    apply not_elem_of_difference. right. apply elem_of_singleton. reflexivity.
Qed.

(** X11 — Failures of the interview service are contained.  Saving
    the progress and updating the status always return normally and
    leave the agent as it was, also when the service raises.  A save
    makes exactly one call, with the agent's session id and the
    snapshot of its present progress, stamped with the clock; a status
    update calls the service once for "started" and once for
    "completed" (with the data given, or an empty dictionary), and for
    any other status, "incomplete" and "error" included, it calls
    nothing. *)
Theorem persistence_contained s :
  (let s' := exec _save_interview_progress s in
   outcome _save_interview_progress s = Ok tt /\
   agent s' = agent s /\
   calls s' = calls s ++ [SaveProgress (session_id (agent s))
                            (snapshot (agent s) (fst (utcnow E (world s))))]) /\
  (forall status data,
     let s' := exec (_update_interview_status status data) s in
     outcome (_update_interview_status status data) s = Ok tt /\
     agent s' = agent s /\
     calls s' = calls s ++
       (if bool_decide (status = "started")
        then [StartSession (session_id (agent s))]
        else if bool_decide (status = "completed")
        then [CompleteSession (session_id (agent s))
                (default (FeedbackData no_feedback) data)]
        else [])).
Proof.
  split.
  - unfold outcome, exec. rewrite save_unfold.
    destruct (utcnow E (world s)) as [t w]. cbn. auto.
  - intros status data. apply wp_status. intros w. cbn. auto.
Qed.

(** X12 — An agent error is not persisted.  [_handle_agent_error]
    reads the clock and hands the status "error" to
    [_update_interview_status], which does nothing with it: the call
    returns, the agent is unchanged and no call to the interview service
    or to anything else is made. *)
Theorem agent_error_persists_nothing e s :
  let s' := exec (_handle_agent_error e) s in
  outcome (_handle_agent_error e) s = Ok tt /\
  agent s' = agent s /\ calls s' = calls s /\
  world s' = snd (utcnow E (world s)).
Proof.
  unfold outcome, exec, _handle_agent_error.
  unfold mbind, M_bind, now. destruct (utcnow E (world s)) as [t w].
  rewrite update_status_ignores by discriminate. cbn. auto.
Qed.

(** *** The duration of the interview *)

Lemma minutes_of_seconds :
  Forall (fun sec =>
            Float.trunc (Float.div (total_seconds (sec * us_per_second))
                                   (Float.of_Z 60)) = sec / 60)
         (seqZ 0 7201).
Proof. apply (bool_decide_unpack _). vm_cast_no_check I. Qed.

Lemma minutes_before_boundary :
  Forall (fun k =>
            Float.trunc (Float.div (total_seconds (k * us_per_minute - 1))
                                   (Float.of_Z 60)) = k - 1)
         (seqZ 1 1440).
Proof. apply (bool_decide_unpack _). vm_cast_no_check I. Qed.

(** X13 — The duration in minutes.  Before the session has started
    the duration is 0 and the clock is not read.  Afterwards the clock
    is read once and nothing else changes; for an elapsed time of a
    whole number of seconds up to two hours, the binary64 computation
    int(total_seconds / 60) yields exactly the whole minutes elapsed
    (the seconds divided by 60, rounded down), and one microsecond
    before a full minute k, up to a day, it still yields k - 1. *)
Theorem interview_duration_minutes s :
  (start_time (progress (agent s)) = None ->
   _get_interview_duration s = (Ok 0, s)) /\
  (forall t0 t w,
     start_time (progress (agent s)) = Some t0 ->
     utcnow E (world s) = (t, w) ->
     exec _get_interview_duration s = Build_Sys (agent s) w (calls s) /\
     (forall sec,
        0 <= sec <= 7200 -> t - t0 = sec * us_per_second ->
        outcome _get_interview_duration s = Ok (sec / 60)) /\
     (forall k,
        1 <= k <= 1440 -> t - t0 = k * us_per_minute - 1 ->
        outcome _get_interview_duration s = Ok (k - 1))).
Proof.
  unfold outcome, exec, _get_interview_duration, mbind, M_bind, gets, now.
  split.
  - intros ->. reflexivity.
  - intros t0 t w -> ->. cbn [fst snd mret M_ret].
    split; [reflexivity|]. split.
    + intros sec Hsec ->. f_equal.
      pose proof minutes_of_seconds as Hall.
      rewrite Forall_forall in Hall. apply Hall.
      apply elem_of_seqZ. lia.
    + intros k Hk ->. f_equal.
      pose proof minutes_before_boundary as Hall.
      rewrite Forall_forall in Hall. apply Hall.
      apply elem_of_seqZ. lia.
Qed.

(** *** The requests of a run *)

(** X14 — The monitor loop asks the session at most once.  Whatever
    the agent handles during the sleeps, the loop makes no request to
    the session while it goes on, and exactly one as it leaves by a
    time-out (the request to conclude) or by inactivity (the request to
    check on the candidate); it raises only out of such a request, and
    when it is left because the interview is over, or is still running
    at the end of the schedule, it has made none. *)
Theorem monitor_requests_once md t0 sleeps s :
  let r := outcome (monitor_loop md (Some t0) sleeps) s in
  let s' := exec (monitor_loop md (Some t0) sleeps) s in
  exists cs,
    calls s' = calls s ++ cs /\
    match r with
    | Ok (ExitTimeout _) => session_requests cs = [TimeReachedInstructions]
    | Ok (ExitInactive _) => session_requests cs = [InactiveInstructions]
    | Ok _ => session_requests cs = []
    | Raise _ =>
        session_requests cs = [TimeReachedInstructions] \/
        session_requests cs = [InactiveInstructions]
    end.
Proof.
  intros r s'.
  destruct (monitor_loop_moved md t0 sleeps s) as (_ & cs & Hcs & H & _).
  eauto.
Qed.

(** X15 — A run of the entry point ends in State ERROR exactly when
    it raises.  If the connection, the start of the session, the
    greeting, the computation of the time limit or a request of the
    monitor loop fails, the run raises and leaves State ERROR; a run
    that returns never leaves State ERROR, whatever the tools did
    during it. *)
Theorem entrypoint_error_state sleeps s :
  let r := outcome (entrypoint sleeps) s in
  let s' := exec (entrypoint sleeps) s in
  state (progress (agent s')) = ERROR <-> exists e, r = Raise e.
Proof.
  intros r s'. destruct (entrypoint_ends sleeps s) as (cs & _ & H & _).
  fold r s' in H. destruct r as [[]|e]; cbn in H.
  - destruct H as [H _]. split; [contradiction|]. intros [e He]. discriminate.
  - destruct H as [H _]. split; eauto.
Qed.

(** X16 — The order of a run.  A run of the entry point calls, in
    this order, the connection, the start of the session, the greeting
    and the "started" write of the interview service, so the session is
    marked as started only after the greeting was requested.  A run
    that raises before the "started" write stopped at the first of the
    three calls that failed; every other run made all four, and after
    them at most one more request to the session. *)
Theorem entrypoint_protocol sleeps s :
  let r := outcome (entrypoint sleeps) s in
  let s' := exec (entrypoint sleeps) s in
  let sid := session_id (agent s) in
  exists cs,
    calls s' = calls s ++ cs /\
    (((exists e, r = Raise e) /\
      exists n, (0 < n <= 3)%nat /\ cs = take n (opening sid)) \/
     exists cs',
       cs = opening sid ++ cs' /\
       (length (session_requests cs') <= 1)%nat).
Proof.
  intros r s' sid.
  destruct (entrypoint_ends sleeps s) as (cs & Hcs & H & _).
  fold r s' sid in H. exists cs. split; [exact Hcs|].
  destruct r as [[]|e]; cbn in H.
  - right. apply H.
  - destruct H as [_ [H|H]]; [left|right]; eauto.
Qed.

(** X20 — A whole run keeps the books.  At the end of every run of
    the entry point of a new agent, whether it returned or raised and
    whatever was handled during it, the questions are numbered from 0
    without gaps and counted by the index, the current question is the
    last one asked, every response refers to a question asked, whose
    index and type it carries, State and flags agree, a last activity
    is recorded exactly when a response is, and every call of
    [save_progress] made during the run was made for the agent's own
    session with a snapshot of at least one question, whose questions
    are counted by its index. *)
Theorem entrypoint_keeps_books sid cfg resume (w : World E) sleeps :
  let s' := exec (entrypoint sleeps) (initial sid cfg resume w) in
  let a := agent s' in
  questions_numbered a /\
  current_question a = last (questions_asked (progress a)) /\
  (forall r, r ∈ responses_received (progress a) ->
     exists q,
       questions_asked (progress a) !! Z.to_nat (r_question_index r) = Some q
       /\ q_index q = r_question_index r /\ q_type q = r_question_type r) /\
  (state (progress a) = QUESTIONING ->
   waiting_for_response a = true /\ current_question a <> None) /\
  (state (progress a) = EVALUATING ->
   waiting_for_response a = false /\ responses_received (progress a) <> []) /\
  (last_activity (progress a) = None <-> responses_received (progress a) = [])
  /\
  forall sid' d,
    SaveProgress sid' d ∈ calls s' ->
    sid' = sid /\
    Z.of_nat (length (pd_questions_asked d)) = pd_current_question_index d /\
    pd_questions_asked d <> [].
Proof.
  intros s' a.
  destruct (entrypoint_ends sleeps (initial sid cfg resume w))
    as (cs & Hcs & _ & H).
  destruct (H (consistent_new sid cfg resume)) as [Hcons Hsaved].
  fold s' a in Hcons. destruct Hcons.
  split_and!; auto.
  intros sid' d Hin.
  unfold s' in Hin. rewrite Hcs in Hin. cbn [app calls initial] in Hin.
  rewrite Forall_forall in Hsaved. exact (Hsaved _ Hin).
Qed.

(** X17 — The entry point of the worker.  No agent is created, no
    call is made and the function returns normally when the room has
    no metadata, when the metadata is not JSON, and when it has no
    session id or an empty one.  When the metadata is JSON but no
    object, or has a session id and an "interview_config" that is no
    dictionary, the function raises AttributeError, again without an
    agent and without a call.  Otherwise exactly one agent is created,
    for the session id given and the configuration given (the empty
    one when the key is missing), its entry point is run, and what that
    raises is raised again: the agent is left in State ERROR exactly
    when the function raises, with the session id and the
    configuration it was created with. *)
Theorem worker_entrypoint metadata sleeps (w : World E) :
  match interview_agent_entrypoint metadata sleeps w with
  | (r, None) =>
      (r = Ok tt /\
       (metadata = NoMetadata \/ metadata = InvalidMetadata \/
        exists cfg resume,
          metadata = SessionConfig None cfg resume \/
          metadata = SessionConfig (Some []) cfg resume)) \/
      (r = Raise AttributeError /\
       (metadata = NotAnObject \/
        exists sid resume,
          sid <> [] /\
          metadata = SessionConfig (Some sid) ConfigNotDict resume))
  | (r, Some s') =>
      exists sid entry cfg resume,
        metadata = SessionConfig (Some sid) entry resume /\ sid <> [] /\
        (entry = ConfigMissing /\ cfg = empty_config \/
         entry = ConfigDict cfg) /\
        (r, s') = entrypoint sleeps (initial sid cfg resume w) /\
        session_id (agent s') = sid /\
        config (agent s') = cfg /\
        user_resume (agent s') = resume /\
        (state (progress (agent s')) = ERROR <-> exists e, r = Raise e)
  end.
Proof.
  assert (Hrun : forall sid entry cfg resume,
            sid <> [] ->
            entry = ConfigMissing /\ cfg = empty_config \/
            entry = ConfigDict cfg ->
            match
              (let (r, s') := entrypoint sleeps (initial sid cfg resume w) in
               (r, Some s'))
            with
            | (r, None) => False
            | (r, Some s') =>
                exists sid' entry' cfg' resume',
                  SessionConfig (Some sid) entry resume
                  = SessionConfig (Some sid') entry' resume' /\
                  sid' <> [] /\
                  (entry' = ConfigMissing /\ cfg' = empty_config \/
                   entry' = ConfigDict cfg') /\
                  (r, s') = entrypoint sleeps (initial sid' cfg' resume' w) /\
                  session_id (agent s') = sid' /\
                  config (agent s') = cfg' /\
                  user_resume (agent s') = resume' /\
                  (state (progress (agent s')) = ERROR <->
                   exists e, r = Raise e)
            end).
  { intros sid entry cfg resume Hsid Hentry.
    set (s0 := initial sid cfg resume w).
    pose proof (entrypoint_evolves sleeps s0) as Hev.
    apply evolves_frame in Hev as (Hid & Hcfg & Hres).
    destruct (entrypoint_ends sleeps s0) as (cs & _ & H & _).
    unfold exec, outcome in *.
    destruct (entrypoint sleeps s0) as [r s'] eqn:Hrun. cbn [fst snd] in *.
    exists sid, entry, cfg, resume. split_and!; auto.
    destruct r as [[]|e]; cbn in H; destruct H as [H _].
    - split; [contradiction|intros [e He]; discriminate].
    - split; eauto. }
  destruct metadata as [| | |sid entry resume]; cbn.
  - left. split; [reflexivity|left; reflexivity].
  - left. split; [reflexivity|right; left; reflexivity].
  - right. split; [reflexivity|left; reflexivity].
  - destruct sid as [[|c sid]|]; cbn.
    + left. split; [reflexivity|]. right; right. exists entry, resume.
      right. reflexivity.
    + destruct entry as [| |cfg].
      * pose proof (Hrun (c :: sid) ConfigMissing empty_config resume
                      ltac:(discriminate) ltac:(left; auto)) as H.
        destruct (entrypoint sleeps _) as [r s']. exact H.
      * right. split; [reflexivity|]. right. exists (c :: sid), resume.
        split; [discriminate|reflexivity].
      * pose proof (Hrun (c :: sid) (ConfigDict cfg) cfg resume
                      ltac:(discriminate) ltac:(right; reflexivity)) as H.
        destruct (entrypoint sleeps _) as [r s']. exact H.
    + left. split; [reflexivity|]. right; right. exists entry, resume.
      left. reflexivity.
Qed.

(** *** Texts *)

Lemma join_bullets_head sep items :
  items <> [] ->
  exists rest, join sep (map (fun item => bullet ++ item) items) = bullet ++ rest.
Proof.
  destruct items as [|item [|item' items]]; [contradiction| |]; intros _; cbn.
  - eexists. reflexivity.
  - eexists. reflexivity.
Qed.

(** X18 — The feedback list shows the top three.  At most the first
    three items are shown, in their order, one bulleted line each:
    whatever follows the third item does not change the text.  An empty
    list reads "• None identified", and the text always begins with a
    bullet, so it is never empty. *)
Theorem format_feedback_list_top3 :
  (forall items more : list str,
     (3 <= length items)%nat ->
     _format_feedback_list (items ++ more) = _format_feedback_list items) /\
  (forall items : list str,
     items <> [] -> (length items <= 3)%nat ->
     _format_feedback_list items
     = join nl (map (fun item => bullet ++ item) items)) /\
  _format_feedback_list [] = bullet ++ lit "None identified" /\
  (forall items : list str,
     exists rest, _format_feedback_list items = bullet ++ rest).
Proof.
  split_and!.
  - intros items more Hlen.
    destruct items as [|i1 [|i2 [|i3 items]]]; cbn in Hlen; try lia.
    reflexivity.
  - intros items Hne Hlen. destruct items as [|item items]; [contradiction|].
    unfold _format_feedback_list. rewrite firstn_all2 by exact Hlen.
    reflexivity.
  - reflexivity.
  - intros [|item others]; [eexists; reflexivity|].
    unfold _format_feedback_list. apply join_bullets_head. discriminate.
Qed.


(** *** Completion needs a tool *)

Lemma not_completed_here s a' w cs :
  (state (progress (agent s)) <> COMPLETED ->
   state (progress a') <> COMPLETED) ->
  completed_writes cs = [] ->
  not_completed s (Build_Sys a' w (calls s ++ cs)).
Proof. intros Ha Hcs. split; [exact Ha|]. eauto. Qed.

Lemma not_completed_refl s : not_completed s s.
Proof.
  split; [exact id|]. exists []. split; [symmetry; apply app_nil_r|reflexivity].
Qed.

Lemma not_completed_trans s s1 s2 :
  not_completed s s1 -> not_completed s1 s2 -> not_completed s s2.
Proof.
  intros (Ha1 & cs1 & Hc1 & Hw1) (Ha2 & cs2 & Hc2 & Hw2).
  split; [auto|]. exists (cs1 ++ cs2). split.
  - rewrite Hc2, Hc1, app_assoc. reflexivity.
  - unfold completed_writes in *. rewrite omap_app, Hw1, Hw2. reflexivity.
Qed.

Lemma evaluate_not_completing response s :
  wp (_evaluate_response response) s (fun _ s' => not_completed s s').
Proof.
  unfold _evaluate_response.
  apply wp_try, wp_bind, wp_gets.
  destruct (current_question (agent s)) as [cq|];
    [|apply wp_ret, not_completed_refl].
  destruct (negb _); [apply wp_ret, not_completed_refl|].
  apply wp_bind, wp_now. intros t w.
  apply wp_bind, wp_modify, wp_bind, wp_now. intros t' w'.
  do 3 apply wp_bind, wp_modify. cbn [agent world calls].
  apply wp_bind, wp_gets. cbn [agent world calls id].
  apply wp_bind, wp_call. intros r w1. cbn [agent world calls].
  destruct r as [evaluation|e];
    [|apply wp_ret, not_completed_here; [discriminate|reflexivity]].
  apply wp_bind, wp_call. intros r w2. cbn [agent world calls].
  rewrite <- app_assoc. cbn [app].
  destruct r as [feedback|e];
    [|apply wp_ret, not_completed_here; [discriminate|reflexivity]].
  apply wp_bind, wp_send, wp_bind, wp_save_exact. intros t'' w3.
  cbn [agent world calls]. apply wp_ret.
  rewrite <- app_assoc. cbn [app].
  apply not_completed_here; [discriminate|reflexivity].
Qed.

Lemma disconnected_frame identity s :
  wp (on_participant_disconnected identity) s (fun _ s' =>
    agent s' = set_room_participants
                 (room_participants (agent s) ∖ {[ identity ]}) (agent s) /\
    calls s' = calls s).
Proof.
  unfold on_participant_disconnected.
  apply wp_bind, wp_modify, wp_bind, wp_gets.
  cbn [agent world calls]. case_bool_decide.
  - apply wp_early_exit. intros w. cbn. auto.
  - apply wp_ret. cbn. auto.
Qed.

Lemma dispatch_not_completing ev s :
  may_conclude ev = false -> not_completed s (exec (dispatch ev) s).
Proof.
  intros Hev.
  change (wp (dispatch ev) s (fun _ s' => not_completed s s')).
  destruct ev; try discriminate Hev; cbn [dispatch].
  - apply wp_bind. eapply wp_mono; [apply evaluate_not_completing|].
    intros [text|e] s' H; [apply wp_ret|]; exact H.
  - apply wp_bind, wp_hint. intros text. apply wp_ret, not_completed_refl.
  - apply wp_bind, wp_clarification. intros text.
    apply wp_ret, not_completed_refl.
  - apply wp_modify. rewrite <- (app_nil_r (calls s)).
    apply not_completed_here; [exact id|reflexivity].
  - eapply wp_mono; [apply disconnected_frame|].
    intros r [a' w' cs'] [Ha Hcs]. cbn [agent calls] in *. subst a' cs'.
    rewrite <- (app_nil_r (calls s)).
    apply not_completed_here; [exact id|reflexivity].
  - unfold wp, exec. rewrite data_channel_unfold. cbn [snd].
    destruct (awaited_response s packet) as [text|];
      [apply (evaluate_not_completing text s)|apply not_completed_refl].
Qed.

Lemma dispatch_all_not_completing evs s :
  Forall (fun ev => may_conclude ev = false) evs ->
  not_completed s (exec (dispatch_all evs) s).
Proof.
  intros Hevs. revert s.
  induction Hevs as [|ev evs Hev _ IH]; intros s; [apply not_completed_refl|].
  cbn [dispatch_all]. unfold exec, mbind, M_bind.
  pose proof (dispatch_not_completing ev s Hev) as H1.
  destruct (dispatch_moved ev s) as ([[] Hok] & _).
  unfold exec, outcome in *.
  destruct (dispatch ev s) as [r s1]. cbn [fst snd] in *. subst r.
  eapply not_completed_trans; [exact H1|apply IH].
Qed.

Lemma monitor_loop_not_completing md t0 sleeps s :
  Forall (Forall (fun ev => may_conclude ev = false)) sleeps ->
  wp (monitor_loop md (Some t0) sleeps) s (fun _ s' => not_completed s s').
Proof.
  intros Hsleeps. revert s.
  induction Hsleeps as [|during rest Hduring _ IH]; intros s;
    cbn [monitor_loop]; apply wp_bind, wp_gets;
    destruct (is_terminal (state (progress (agent s))));
    try (apply wp_ret, not_completed_refl).
  pose proof (dispatch_all_not_completing during s Hduring) as H1.
  pose proof (dispatch_all_returns during s) as Hok.
  apply wp_bind. unfold wp at 1. rewrite Hok.
  set (s1 := exec (dispatch_all during) s) in *.
  apply wp_bind, wp_now. intros t w. cbn [agent world calls].
  assert (H2 : not_completed s (Build_Sys (agent s1) w (calls s1))).
  { destruct H1 as (Ha & cs & Hcs & Hw). split; [exact Ha|]. eauto. }
  assert (Hleave : forall i (exit : MonitorExit),
            wp (call (GenerateReply i) (generate_reply E i);; mret exit)
               (Build_Sys (agent s1) w (calls s1))
               (fun _ s' => not_completed s s')).
  { intros i exit. apply wp_bind, wp_call. intros [[]|e] w';
      [apply wp_ret|]; (eapply not_completed_trans; [exact H2|]);
      apply not_completed_here; cbn [agent]; auto. }
  assert (Hnext : wp (monitor_loop md (Some t0) rest)
                     (Build_Sys (agent s1) w (calls s1))
                     (fun _ s' => not_completed s s')).
  { eapply wp_mono; [apply IH|]. intros r' s' H3.
    eapply not_completed_trans; eauto. }
  destruct (t - t0 >? md); [apply Hleave|].
  apply wp_bind, wp_gets. cbn [agent].
  destruct (last_activity (progress (agent s1))) as [la|]; [|exact Hnext].
  destruct (t - la >? inactivity_limit); [apply Hleave|exact Hnext].
Qed.

Lemma entrypoint_not_completing sleeps s :
  Forall (Forall (fun ev => may_conclude ev = false)) sleeps ->
  wp (entrypoint sleeps) s (fun _ s' =>
    state (progress (agent s')) <> COMPLETED /\
    exists cs, calls s' = calls s ++ cs /\ completed_writes cs = []).
Proof.
  intros Hsleeps. unfold entrypoint.
  assert (Hfail : forall e a' w cs,
            completed_writes cs = [] ->
            wp (modify (map_progress (set_state ERROR));;
                _handle_agent_error e;; (raise e : M E unit))
               (Build_Sys a' w (calls s ++ cs))
               (fun _ s' =>
                  state (progress (agent s')) <> COMPLETED /\
                  exists cs, calls s' = calls s ++ cs /\
                             completed_writes cs = [])).
  { intros e a' w cs Hcs.
    apply wp_bind, wp_modify, wp_bind, wp_agent_error.
    intros w'. apply wp_raise. cbn [agent calls].
    split; [discriminate|eauto]. }
  apply wp_try, wp_bind, wp_call. intros r w.
  destruct r as [[]|e]; [|apply Hfail; reflexivity].
  apply wp_bind, wp_now. intros t w1. cbn [agent world calls].
  apply wp_bind, wp_modify, wp_bind, wp_modify. cbn [agent world calls].
  apply wp_bind, wp_call. intros r w2. cbn [agent world calls].
  rewrite <- app_assoc. cbn [app].
  destruct r as [[]|e]; [|apply Hfail; reflexivity].
  apply wp_bind, wp_call. intros r w3. cbn [agent world calls].
  rewrite <- app_assoc. cbn [app].
  destruct r as [[]|e]; [|apply Hfail; reflexivity].
  apply wp_bind, wp_status. intros w4. cbn [agent world calls].
  rewrite <- app_assoc. cbn [app status_calls bool_decide].
  match goal with
  | |- context [status_calls "started" None ?sid] =>
      change (status_calls "started" None sid) with [StartSession sid]
  end.
  cbn [app].
  apply wp_bind. unfold _monitor_interview_progress.
  apply wp_bind, wp_gets, wp_bind, wp_lift.
  destruct (timedelta_minutes _) as [md|e]; [|apply Hfail; reflexivity].
  apply wp_bind, wp_gets. cbn [agent].
  eapply wp_mono; [apply (monitor_loop_not_completing md t _ _ Hsleeps)|].
  cbn [agent calls].
  intros r [a' w' cs'] (Ha & cs & Hcs & Hw). cbn [agent calls] in *.
  specialize (Ha ltac:(discriminate)). subst cs'.
  rewrite <- app_assoc.
  assert (Hall : completed_writes
                   ([Connect; SessionStart; GenerateReply GreetingInstructions;
                     StartSession (session_id (agent s))] ++ cs) = []).
  { unfold completed_writes in *. rewrite omap_app, Hw. reflexivity. }
  destruct r as [exit|e]; [apply wp_ret|apply Hfail; exact Hall].
  cbn [agent calls]. split; [exact Ha|eauto].
Qed.

(** X21 — Only a tool completes an interview.  The monitor loop and
    the entry point never set State COMPLETED and never write
    "completed" themselves, not even when the time is up.  A run of the
    entry point during which neither [_ask_next_question] nor
    [_conclude_interview] is called, whatever else is handled
    (responses, hints, clarifications, room events, data packets), ends
    in a State other than COMPLETED and adds no "completed" write to
    the log, whether it ends by the time-out, by inactivity, by a
    failure or at the end of the schedule. *)
Theorem completion_needs_a_tool sleeps s :
  Forall (Forall (fun ev => may_conclude ev = false)) sleeps ->
  let s' := exec (entrypoint sleeps) s in
  state (progress (agent s')) <> COMPLETED /\
  completed_writes (calls s') = completed_writes (calls s) /\
  (forall md t0 k,
     not_completed k (exec (monitor_loop md (Some t0) sleeps) k)).
Proof.
  intros Hsleeps s'.
  destruct (entrypoint_not_completing sleeps s Hsleeps) as (Ha & cs & Hcs & Hw).
  split; [exact Ha|]. split.
  - unfold s'. rewrite Hcs. unfold completed_writes in *.
    rewrite omap_app, Hw. apply app_nil_r.
  - intros md t0 k. apply (monitor_loop_not_completing md t0 sleeps k Hsleeps).
Qed.

End Properties.

(** A session with three to five questions and a target of 30 minutes,
    after four questions: the policy compares the elapsed minutes with
    the scaled target. *)
Lemma continuation_policy_witness :
  let s := Demo.after Demo.healthy
             [AskNextQuestion; AskNextQuestion; AskNextQuestion;
              AskNextQuestion] in
  (min_q s <= asked s < max_q s 10) /\
  Float.of_int (target_minutes s) = Ok (Float.of_Z 30) /\
  exists elapsed s',
    _get_interview_duration (polled s (world s)) = (Ok elapsed, s') /\
    _should_continue_interview s =
      (Ok (Float.int_lt elapsed (Float.mul (Float.of_Z 30) Float.f1_2)), s') /\
    (0 <= target_minutes s <= 1440 ->
     Float.int_lt elapsed (Float.mul (Float.of_Z 30) Float.f1_2) =
     (5 * elapsed <? 6 * target_minutes s)).
Proof.
  intros s.
  assert (Hrange : min_q s <= asked s < max_q s 10) by (vm_compute; intuition discriminate).
  split; [exact Hrange|]. split; [reflexivity|].
  destruct (continuation_policy s 10 (world s) eq_refl) as (_ & _ & H & _).
  exact (H Hrange (Float.of_Z 30) eq_refl).
Defined.

(** After the entry point has connected, the first question. *)
Lemma question_index_invariant_witness :
  let s := exec (step Started) (Demo.new_session Demo.healthy) in
  let s' := exec _ask_next_question s in
  reachable s /\
  current_question_index (progress (agent s')) = 1 /\
  exists q,
    questions_asked (progress (agent s')) = [q] /\ q_index q = 0 /\
    q_question q = VStr (lit "Tell me about a project you led.0").
Proof.
  intros s s'.
  assert (Hs : reachable s) by (apply reachable_step, reachable_initial).
  split; [exact Hs|].
  destruct (question_index_invariant s Hs) as (_ & _ & Hask & _).
  destruct Hask as [_ Hask].
  exact (Hask (lit "Tell me about a project you led.0") eq_refl).
Defined.

(** Before any question, a submitted response is rejected and nothing
    changes. *)
Lemma response_rejected_witness :
  let s := Demo.after Demo.healthy [] in
  let response := lit "Hello?" in
  current_question (agent s) = None /\
  _evaluate_response response s = (Ok response_not_caught, s).
Proof.
  intros s response. split; [reflexivity|].
  apply (response_rejected s response). left. reflexivity.
Defined.

(** The question bank answers with a dictionary that lacks "question":
    the filler is returned and the agent is as it was. *)
Lemma ask_catches_everything_witness :
  let s := Demo.after Demo.bank_malformed [] in
  outcome _ask_next_question s = Ok question_filler /\
  agent (exec _ask_next_question s) = agent s.
Proof.
  intros s.
  assert (Hout : outcome _ask_next_question s = Ok question_filler)
    by (vm_compute; reflexivity).
  split; [exact Hout|].
  destruct (ask_catches_everything s) as (_ & _ & H & _).
  destruct (H Hout) as [Ha|(q & Ha & _)]; [exact Ha|].
  apply (f_equal (fun a => length (questions_asked (progress a)))) in Ha.
  vm_compute in Ha. discriminate Ha.
Defined.

(** C4, as stated, fails: in State EVALUATING, after one question and
    one accepted response, a second response is accepted as well. *)
Lemma response_in_evaluating_counterexample :
  let s := Demo.after Demo.healthy
             [AskNextQuestion; SubmitResponse (lit "I led a migration.")] in
  let response := lit "One more thing." in
  let s' := exec (_evaluate_response response) s in
  state (progress (agent s)) = EVALUATING /\
  state (progress (agent s)) <> QUESTIONING /\
  length (responses_received (progress (agent s))) = 1%nat /\
  length (responses_received (progress (agent s'))) = 2%nat /\
  last_activity (progress (agent s)) = Some 4000000 /\
  last_activity (progress (agent s')) = Some 7000000 /\
  outcome (_evaluate_response response) s = Ok (lit "Nice answer.") /\
  outcome (_evaluate_response response) s <> Ok response_not_caught.
Proof. vm_compute. split_and!; try reflexivity; discriminate. Qed.

(** The evaluator is down: the response is recorded and acknowledged. *)
Lemma response_kept_on_failure_witness :
  let s := Demo.after Demo.evaluator_down [AskNextQuestion] in
  let response := lit "I led a migration." in
  let cq := {| q_question := VStr (lit "Tell me about a project you led.0");
               q_type := VStr (lit "behavioral");
               q_difficulty := VStr (lit "medium");
               q_timestamp := 1000000; q_index := 0 |} in
  let s' := exec (_evaluate_response response) s in
  current_question (agent s) = Some cq /\
  outcome (_evaluate_response response) s = Ok response_acknowledged /\
  responses_received (progress (agent s'))
  = responses_received (progress (agent s)) ++ [response_to cq response 3000000] /\
  last_activity (progress (agent s')) = Some 4000000 /\
  state (progress (agent s')) = EVALUATING /\
  state (progress (agent s')) <> ERROR.
Proof.
  intros s response cq s'.
  assert (Hcq : current_question (agent s) = Some cq) by reflexivity.
  split; [exact Hcq|].
  apply (response_kept_on_failure s response cq 3000000 4000000 5000000
           Hcq eq_refl eq_refl).
  left. exists (ServiceError (lit "model unavailable")). reflexivity.
Defined.

(** C5, as stated, fails: with the interview service raising on every
    call the question is asked and returned all the same; with a
    question bank returning dictionaries that lack "question", the
    KeyError is swallowed and the filler is returned.  In both cases
    nothing is raised and State is not ERROR. *)
Lemma ask_swallows_counterexample :
  let s := Demo.after Demo.store_down [] in
  let s' := exec _ask_next_question s in
  let k := Demo.after Demo.bank_malformed [] in
  let k' := exec _ask_next_question k in
  outcome _ask_next_question s
  = Ok (question_prompt (lit "Tell me about a project you led.0")) /\
  state (progress (agent s')) = QUESTIONING /\
  (exists d, last (calls s') = Some (SaveProgress (lit "session-1") d)) /\
  outcome _ask_next_question k = Ok question_filler /\
  state (progress (agent k')) = GREETING /\
  agent k' = agent k.
Proof.
  vm_compute. split_and!; try reflexivity. eexists. reflexivity.
Qed.

(** C2, as stated, fails: a second call in State COMPLETED asks for a
    final feedback again, receives a different one, writes "completed"
    a second time, and returns another summary than the first call. *)
Lemma conclude_twice_counterexample :
  let s0 := Demo.after Demo.healthy [AskNextQuestion] in
  let s1 := exec _conclude_interview s0 in
  let s2 := exec _conclude_interview s1 in
  state (progress (agent s1)) = COMPLETED /\
  completed_writes (calls s1) = [FeedbackData (Demo.feedback_at 4000000)] /\
  completed_writes (calls s2)
  = [FeedbackData (Demo.feedback_at 4000000);
     FeedbackData (Demo.feedback_at 6000000)] /\
  length (feedback_requests (calls s1)) = 1%nat /\
  length (feedback_requests (calls s2)) = 2%nat /\
  Demo.feedback_at 4000000 <> Demo.feedback_at 6000000 /\
  outcome _conclude_interview s1 <> outcome _conclude_interview s0.
Proof. vm_compute. split_and!; try reflexivity; discriminate. Qed.

(** C3, as stated, fails: from COMPLETED a question is asked and a
    response is accepted, and from ERROR the interview is concluded. *)
Lemma tools_in_terminal_state_counterexample :
  let s := Demo.after Demo.healthy [AskNextQuestion; ConcludeInterview] in
  let asked_again := exec _ask_next_question s in
  let answered := exec (_evaluate_response (lit "Late answer.")) s in
  let failed := exec (step (Failed TypeError)) (Demo.new_session Demo.healthy) in
  let concluded := exec _conclude_interview failed in
  is_terminal (state (progress (agent s))) = true /\
  state (progress (agent asked_again)) = QUESTIONING /\
  length (questions_asked (progress (agent s))) = 1%nat /\
  length (questions_asked (progress (agent asked_again))) = 2%nat /\
  current_question_index (progress (agent s)) = 1 /\
  current_question_index (progress (agent asked_again)) = 2 /\
  state (progress (agent answered)) = EVALUATING /\
  length (responses_received (progress (agent s))) = 0%nat /\
  length (responses_received (progress (agent answered))) = 1%nat /\
  last_activity (progress (agent s)) = None /\
  last_activity (progress (agent answered)) = Some 6000000 /\
  state (progress (agent failed)) = ERROR /\
  state (progress (agent concluded)) = COMPLETED.
Proof. vm_compute. split_and!; reflexivity. Qed.

(** C6 at the failing input — Two of five questions are answered and
    the only participant leaves: the room is empty, the early exit is
    handled, and no call at all is made; nothing is persisted. *)
Theorem early_exit_persists_nothing :
  let s := Demo.after Demo.healthy
             [ParticipantConnected (lit "candidate");
              AskNextQuestion; SubmitResponse (lit "First answer.");
              AskNextQuestion; SubmitResponse (lit "Second answer.")] in
  let s' := exec (dispatch (ParticipantDisconnected (lit "candidate"))) s in
  length (questions_asked (progress (agent s))) = 2%nat /\
  length (responses_received (progress (agent s))) = 2%nat /\
  is_terminal (state (progress (agent s))) = false /\
  room_participants (agent s') = ∅ /\
  calls s' = calls s /\
  calls (exec _handle_early_exit s) = calls s /\
  forall data, _update_interview_status "incomplete" data s = (Ok tt, s).
Proof.
  intros s s'. split_and!.
  - vm_compute. reflexivity.
  - vm_compute. reflexivity.
  - vm_compute. reflexivity.
  - vm_compute. reflexivity.
  - vm_compute. reflexivity.
  - apply early_exit_calls.
  - intros data. apply update_status_ignores; discriminate.
Qed.


(** A silent session on a clock that jumps eleven minutes a reading:
    the run ends by the time-out, never by inactivity. *)
Lemma silent_session_never_inactive_witness :
  let s' := exec (entrypoint [[]; []; []; []; []])
              (Demo.new_session Demo.slow) in
  responses_received (progress (agent s')) = [] /\
  last_activity (progress (agent s')) = None /\
  (GenerateReply InactiveInstructions ∉ calls s') /\
  last (calls s') = Some (GenerateReply TimeReachedInstructions).
Proof.
  intros s'.
  assert (Hnone : responses_received (progress (agent s')) = [])
    by (vm_compute; reflexivity).
  split; [exact Hnone|].
  destruct (@silent_session_never_inactive (Demo.env Demo.slow))
    as (_ & _ & H).
  destruct (H (lit "session-1") Demo.cfg_3_5_30 None 0
              [[]; []; []; []; []] Hnone) as [H1 H2].
  split; [exact H1|]. split; [exact H2|]. vm_compute. reflexivity.
Defined.

(** A session in which one question was asked and answered. *)
Lemma session_bookkeeping_witness :
  let s := exec (step (Handled (SubmitResponse (lit "I led a migration."))))
             (exec (step (Handled AskNextQuestion))
                (exec (step Started) (Demo.new_session Demo.healthy))) in
  reachable s /\
  current_question (agent s) = last (questions_asked (progress (agent s))) /\
  forall r, r ∈ responses_received (progress (agent s)) ->
    exists q,
      questions_asked (progress (agent s)) !! Z.to_nat (r_question_index r)
      = Some q /\
      q_index q = r_question_index r /\ q_type q = r_question_type r.
Proof.
  intros s.
  assert (Hs : reachable s)
    by (unfold s; repeat apply reachable_step; apply reachable_initial).
  split; [exact Hs|]. exact (session_bookkeeping s Hs).
Defined.

(** After the first question the agent is in State QUESTIONING and
    waits for the response to it. *)
Lemma state_flags_witness :
  let s := exec (step (Handled AskNextQuestion))
             (exec (step Started) (Demo.new_session Demo.healthy)) in
  reachable s /\
  state (progress (agent s)) = QUESTIONING /\
  waiting_for_response (agent s) = true /\
  current_question (agent s) <> None.
Proof.
  intros s.
  assert (Hs : reachable s)
    by (unfold s; repeat apply reachable_step; apply reachable_initial).
  split; [exact Hs|].
  assert (Hstate : state (progress (agent s)) = QUESTIONING)
    by (vm_compute; reflexivity).
  split; [exact Hstate|].
  destruct (state_flags s Hs) as (H & _). exact (H Hstate).
Defined.

(** With three to five questions configured, a sixth request for a
    question leaves five questions asked. *)
Lemma question_cap_respected_witness :
  let ask := step (Handled AskNextQuestion) in
  let s := exec ask (exec ask (exec ask (exec ask (exec ask (exec ask
             (exec (step Started) (Demo.new_session Demo.healthy))))))) in
  reachable s /\
  @question_cap (Demo.env Demo.healthy) (agent s) = 5 /\ asked s <= 5.
Proof.
  intros ask s.
  assert (Hs : reachable s)
    by (unfold s, ask; repeat apply reachable_step; apply reachable_initial).
  split; [exact Hs|].
  assert (Hcap : @question_cap (Demo.env Demo.healthy) (agent s) = 5)
    by (vm_compute; reflexivity).
  split; [exact Hcap|].
  rewrite <- Hcap. apply (question_cap_respected s Hs).
Defined.

(** Two calls that overlap: with four of at most five questions asked,
    both calls consult the policy before either records its question,
    and six questions are asked. *)
Lemma overlapping_asks_exceed_cap :
  let s := Demo.after Demo.healthy
             [AskNextQuestion; AskNextQuestion; AskNextQuestion;
              AskNextQuestion] in
  let answer i := Ok (Some (Demo.a_question i)) in
  let s1 := exec ask_begin s in
  let s2 := exec ask_begin s1 in
  let s3 := exec (ask_resume (answer 4)) s2 in
  let s4 := exec (ask_resume (answer 4)) s3 in
  asked s = 4 /\
  @question_cap (Demo.env Demo.healthy) (agent s) = 5 /\
  outcome ask_begin s = Ok (AskAwaiting (answer 4)) /\
  outcome ask_begin s1 = Ok (AskAwaiting (answer 4)) /\
  asked s4 = 6 /\
  current_question_index (progress (agent s4)) = 6.
Proof. vm_compute. split_and!; reflexivity. Qed.

(** The snapshot saved with the first question. *)
Lemma saved_snapshots_sound_witness :
  let s := exec (step (Handled AskNextQuestion))
             (exec (step Started) (Demo.new_session Demo.healthy)) in
  let d := snapshot (agent s) 2000000 in
  reachable s /\
  SaveProgress (lit "session-1") d ∈ calls s /\
  lit "session-1" = session_id (agent s) /\
  Z.of_nat (length (pd_questions_asked d)) = pd_current_question_index d /\
  pd_questions_asked d <> [].
Proof.
  intros s d.
  assert (Hs : reachable s)
    by (unfold s; repeat apply reachable_step; apply reachable_initial).
  assert (Hin : SaveProgress (lit "session-1") d ∈ calls s).
  { apply list_elem_of_lookup. exists 2%nat. vm_compute. reflexivity. }
  split; [exact Hs|]. split; [exact Hin|].
  apply (saved_snapshots_sound s (lit "session-1") d Hs Hin).
Defined.


(** The first response of a session, evaluated. *)
Lemma response_feedback_path_witness :
  let s := Demo.after Demo.healthy [AskNextQuestion] in
  let response := lit "I led a migration." in
  let cq := {| q_question := VStr (lit "Tell me about a project you led.0");
               q_type := VStr (lit "behavioral");
               q_difficulty := VStr (lit "medium");
               q_timestamp := 1000000; q_index := 0 |} in
  let a' := answered_with (response_to cq response 3000000) 4000000 (agent s) in
  let s' := exec (_evaluate_response response) s in
  current_question (agent s) = Some cq /\
  outcome (_evaluate_response response) s = Ok (lit "Nice answer.") /\
  agent s' = a' /\
  ctx_interview_progress (context_of a') = 1 /\
  is_early a' = true.
Proof.
  intros s response cq a' s'.
  assert (Hcq : current_question (agent s) = Some cq) by reflexivity.
  split; [exact Hcq|].
  destruct (response_feedback_path s response cq 3000000 4000000 5000000
              Demo.an_evaluation 5000000 (lit "Nice answer.") 5000000
              Hcq eq_refl eq_refl eq_refl eq_refl)
    as (H1 & H2 & _ & H4 & H5).
  split_and!; assumption.
Defined.

(** Eleven minutes into a session. *)
Lemma interview_duration_minutes_witness :
  let s := Demo.after Demo.slow [] in
  start_time (progress (agent s)) = Some 0 /\
  utcnow (Demo.env Demo.slow) (world s) = (660 * us_per_second, 1320 * us_per_second) /\
  outcome _get_interview_duration s = Ok 11.
Proof.
  intros s. split; [reflexivity|]. split; [reflexivity|].
  destruct (interview_duration_minutes s) as [_ H].
  destruct (H 0 (660 * us_per_second) (1320 * us_per_second)
              eq_refl eq_refl) as (_ & Hsec & _).
  apply (Hsec 660); [lia|reflexivity].
Defined.


(** A response sent over the data channel while the first question is
    open: it is accepted, and a second packet changes nothing. *)
Lemma data_channel_effect_witness :
  let s := Demo.after Demo.healthy [AskNextQuestion] in
  let packet :=
    Some {| msg_type := Some (lit "response_submitted");
            msg_data := Some {[ "response" := lit "I led a migration." ]} |} in
  let s' := exec (on_data_received packet) s in
  awaited_response s packet = Some (lit "I led a migration.") /\
  waiting_for_response (agent s') = false /\
  on_data_received packet s' = (Ok tt, s').
Proof.
  intros s packet s'.
  assert (Hawaited : awaited_response s packet
                     = Some (lit "I led a migration."))
    by (vm_compute; reflexivity).
  split; [exact Hawaited|].
  destruct (data_channel_effect s packet) as (_ & _ & H).
  destruct (H (lit "I led a migration.")
              {| q_question := VStr (lit "Tell me about a project you led.0");
                 q_type := VStr (lit "behavioral");
               q_difficulty := VStr (lit "medium");
                 q_timestamp := 1000000; q_index := 0 |}
              Hawaited eq_refl eq_refl) as (_ & Hwaiting & Hnext).
  split; [exact Hwaiting|apply Hnext].
Defined.

(** A run in which the candidate answers before any question and asks
    for a hint, on a clock that jumps eleven minutes a reading: the run
    ends by the time-out, and the session is not completed. *)
Lemma completion_needs_a_tool_witness :
  let sleeps := [[SubmitResponse (lit "Hello?"); ProvideHint]; []; []; []] in
  let s' := exec (entrypoint sleeps) (Demo.new_session Demo.slow) in
  last (calls s') = Some (GenerateReply TimeReachedInstructions) /\
  state (progress (agent s')) <> COMPLETED /\
  completed_writes (calls s') = [].
Proof.
  intros sleeps s'.
  split; [vm_compute; reflexivity|].
  assert (Hsleeps : Forall (Forall (fun ev => may_conclude ev = false)) sleeps)
    by (repeat constructor).
  destruct (completion_needs_a_tool sleeps (Demo.new_session Demo.slow) Hsleeps)
    as (H1 & H2 & _).
  split; [exact H1|exact H2].
Defined.
